(** * OralableApp/add_file_to_project.py

    A shallow embedding of the script that registers
    [HealthKitPermissionView.swift] in [project.pbxproj], and the properties
    of its anchor-based patching.

    Text is a list of 8-bit characters.  The four search patterns are ASCII
    only and never look at more than one character at a time, so working on
    the UTF-8 bytes of the manifest or on its code points gives the same
    insertions. *)

From Stdlib Require Import Ascii String Hexadecimal HexadecimalString.
From Stdlib Require Import List Arith Lia NArith Bool Permutation.
From Stdlib Require HexadecimalPos HexadecimalN HexadecimalFacts.
Import ListNotations.

Set Implicit Arguments.

Definition text := list ascii.

Definition lit (s : string) : text := list_ascii_of_string s.

Definition TAB : ascii := "009"%char.
Definition NL : ascii := "010"%char.

(** ** The fragment of Python's [re] the script uses *)

Module Re.

(** A compiled pattern is a sequence of items: a run of literal characters,
    or [[^c]+], the greedy one-or-more repetition of a negated one-character
    class.  The capturing parentheses the script wraps around each pattern do
    not change what [search] returns and are left out. *)
Inductive item : Type :=
| Lit (l : text)
| PlusNot (c : ascii).

Definition regex := list item.

Fixpoint starts_with (l s : text) : bool :=
  match l, s with
  | [], _ => true
  | a :: l', b :: s' => Ascii.eqb a b && starts_with l' s'
  | _ :: _, [] => false
  end.

(** [[^c]+] followed by the continuation [k]: consume one character other
    than [c], then first try to consume more (greedy), and only when the rest
    of the pattern fails everywhere further on, give characters back one at a
    time.  The result is the number of characters matched. *)
Fixpoint plus_not (c : ascii) (k : text -> option nat) (s : text) : option nat :=
  match s with
  | [] => None
  | x :: s' =>
      if Ascii.eqb x c then None
      else match plus_not c k s' with
           | Some n => Some (S n)
           | None => option_map S (k s')
           end
  end.

(** Match the pattern at the very start of [s]. *)
Fixpoint match_here (p : regex) (s : text) : option nat :=
  match p with
  | [] => Some 0
  | Lit l :: p' =>
      if starts_with l s
      then option_map (Nat.add (length l)) (match_here p' (skipn (length l) s))
      else None
  | PlusNot c :: p' => plus_not c (match_here p') s
  end.

(** The match object: only [start()] and [end()] matter here. *)
Record match_obj : Type := { m_start : nat; m_end : nat }.

(** [re.search]: try every start position from left to right, the position
    after the last character included; [i] is the offset of [s] in the
    searched string. *)
Fixpoint search_from (p : regex) (i : nat) (s : text) : option match_obj :=
  match match_here p s with
  | Some n => Some {| m_start := i; m_end := i + n |}
  | None =>
      match s with
      | [] => None
      | _ :: s' => search_from p (S i) s'
      end
  end.

Definition search (p : regex) (s : text) : option match_obj := search_from p 0 s.

(** What it means for a whole word to match a pattern. *)
Inductive matches : regex -> text -> Prop :=
| matches_nil : matches [] []
| matches_lit l p w : matches p w -> matches (Lit l :: p) (l ++ w)
| matches_plus c p u w :
    u <> [] -> Forall (fun x => x <> c) u -> matches p w ->
    matches (PlusNot c :: p) (u ++ w).

(** The pattern matches at offset [i] of [s]. *)
Definition matches_at (p : regex) (s : text) (i : nat) : Prop :=
  exists w rest, skipn i s = w ++ rest /\ i <= length s /\ matches p w.

(** A pattern finds the longest match when [match_here] returns a length no
    matching prefix exceeds. *)
Definition longest (p : regex) : Prop :=
  forall s n w r,
    match_here p s = Some n -> s = w ++ r -> matches p w -> length w <= n.

End Re.

Import Re.

(** ** Python string operations used by the script *)

(** [content[:pos] + entry + content[pos:]] *)
Definition splice (content : text) (insert_pos : nat) (entry : text) : text :=
  firstn insert_pos content ++ entry ++ skipn insert_pos content.

(** [s.replace(old, new)] for a one-character [old]. *)
Definition replace_char (old : ascii) (new : text) (s : text) : text :=
  flat_map (fun x => if Ascii.eqb x old then new else [x]) s.

(** [sep.join(parts)] *)
Fixpoint join (sep : text) (parts : list text) : text :=
  match parts with
  | [] => []
  | [x] => x
  | x :: rest => x ++ sep ++ join sep rest
  end.

(** Iterating over a string yields its one-character strings. *)
Definition chars (s : text) : list text := map (fun x => [x]) s.

Definition upper_char (x : ascii) : ascii :=
  let n := nat_of_ascii x in
  if (97 <=? n) && (n <=? 122) then ascii_of_nat (n - 32) else x.

(** [s.upper()] *)
Definition upper (s : text) : text := map upper_char s.

(** ** The [uuid] module, as far as [generate_uuid] goes through it *)

Module Uuid.

(** [uuid.uuid4()] is [UUID(bytes=os.urandom(16), version=4)]: the random
    128-bit integer [r] with the variant and version bits forced. *)
Definition uuid4 (r : N) : N :=
  let i := N.ldiff r (N.shiftl 0xc000 48) in
  let i := N.lor i (N.shiftl 0x8000 48) in
  let i := N.ldiff i (N.shiftl 0xf000 64) in
  N.lor i (N.shiftl 4 76).

(** ['%032x' % i]: lower-case hexadecimal, zero-padded on the left to 32. *)
Definition format_032x (i : N) : text :=
  let digits := lit (NilEmpty.string_of_uint (N.to_hex_uint i)) in
  repeat "0"%char (32 - length digits) ++ digits.

(** [str(u)]: the 8-4-4-4-12 form. *)
Definition str (i : N) : text :=
  let hex := format_032x i in
  firstn 8 hex ++ lit "-" ++ firstn 4 (skipn 8 hex) ++ lit "-" ++
  firstn 4 (skipn 12 hex) ++ lit "-" ++ firstn 4 (skipn 16 hex) ++ lit "-" ++
  skipn 20 hex.

End Uuid.

(** ** The script *)

(** [''.join(str(uuid.uuid4()).replace('-', ''))[:24].upper()]; [r] is the
    random number drawn by [uuid4]. *)
Definition generate_uuid (r : N) : text :=
  upper (firstn 24 (join [] (chars (replace_char "-"%char [] (Uuid.str (Uuid.uuid4 r)))))).

(** [r'(/\* Begin PBXBuildFile section \*/\n)'] *)
Definition build_file_section_re : regex :=
  [Lit (lit "/* Begin PBXBuildFile section */" ++ [NL])].

(** [r'(/\* Begin PBXFileReference section \*/\n)'] *)
Definition file_ref_section_re : regex :=
  [Lit (lit "/* Begin PBXFileReference section */" ++ [NL])].

(** [r'(/\* Views \*/ = {[^}]+children = \(\n)'] *)
Definition views_group_pattern : regex :=
  [Lit (lit "/* Views */ = {"); PlusNot "}"%char; Lit (lit "children = (" ++ [NL])].

(** [r'(/\* Sources \*/ = {[^}]+isa = PBXSourcesBuildPhase;[^}]+files = \(\n)'] *)
Definition sources_pattern : regex :=
  [Lit (lit "/* Sources */ = {"); PlusNot "}"%char;
   Lit (lit "isa = PBXSourcesBuildPhase;"); PlusNot "}"%char;
   Lit (lit "files = (" ++ [NL])].

(** The four f-strings. *)
Definition build_file_entry (file_name file_ref_uuid build_file_uuid : text) : text :=
  [TAB; TAB] ++ build_file_uuid ++ lit " /* " ++ file_name ++
  lit " in Sources */ = {isa = PBXBuildFile; fileRef = " ++ file_ref_uuid ++
  lit " /* " ++ file_name ++ lit " */; };" ++ [NL].

Definition file_ref_entry (file_name file_ref_uuid : text) : text :=
  [TAB; TAB] ++ file_ref_uuid ++ lit " /* " ++ file_name ++
  lit " */ = {isa = PBXFileReference; lastKnownFileType = sourcecode.swift; path = " ++
  file_name ++ lit "; sourceTree = " ++ ["034"%char] ++ lit "<group>" ++
  ["034"%char] ++ lit "; };" ++ [NL].

Definition group_entry (file_name file_ref_uuid : text) : text :=
  [TAB; TAB; TAB; TAB] ++ file_ref_uuid ++ lit " /* " ++ file_name ++ lit " */," ++ [NL].

Definition sources_entry (file_name build_file_uuid : text) : text :=
  [TAB; TAB; TAB; TAB] ++ build_file_uuid ++ lit " /* " ++ file_name ++
  lit " in Sources */," ++ [NL].

(** One of the four blocks: search the current content, and on a match
    splice the entry in at [end()]; without a match the content stays. *)
Definition insert_after (pattern : regex) (entry : text) (content : text) : text :=
  match search pattern content with
  | Some m => let insert_pos := m_end m in splice content insert_pos entry
  | None => content
  end.

(** The body of [add_file_to_project] between reading and writing the file,
    with the file name, the path and the two identifiers as arguments. *)
Definition patch (content file_name file_path file_ref_uuid build_file_uuid : text) : text :=
  (* 1. Add PBXBuildFile entry *)
  let content :=
    insert_after build_file_section_re
      (build_file_entry file_name file_ref_uuid build_file_uuid) content in
  (* 2. Add PBXFileReference entry *)
  let content :=
    insert_after file_ref_section_re (file_ref_entry file_name file_ref_uuid) content in
  (* 3. Add to Views group *)
  let content :=
    insert_after views_group_pattern (group_entry file_name file_ref_uuid) content in
  (* 4. Add to Sources Build Phase *)
  insert_after sources_pattern (sources_entry file_name build_file_uuid) content.

Definition the_file_name : text := lit "HealthKitPermissionView.swift".
Definition the_file_path : text := lit "OralableApp/Views/HealthKitPermissionView.swift".






(** ** The four sub-steps, by name *)

Inductive section_id : Type := BuildFile | FileRef | ViewsGroup | SourcesPhase.

Definition section_id_eq_dec (a b : section_id) : {a = b} + {a <> b}.
Proof. decide equality. Defined.

(** The order in which the script runs them. *)
Definition implemented_order : list section_id :=
  [BuildFile; FileRef; ViewsGroup; SourcesPhase].

(** [new] is [old] with [line] put in right after a text matching [p];
    nothing of [old] is removed or rewritten. *)
Definition inserted_after (p : regex) (line old new : text) : Prop :=
  exists pre w post,
    old = pre ++ w ++ post /\ new = pre ++ w ++ line ++ post /\ matches p w.

Section SubSteps.

Variables file_name file_ref_uuid build_file_uuid : text.

Definition pattern_of (k : section_id) : regex :=
  match k with
  | BuildFile => build_file_section_re
  | FileRef => file_ref_section_re
  | ViewsGroup => views_group_pattern
  | SourcesPhase => sources_pattern
  end.

Definition entry_of (k : section_id) : text :=
  match k with
  | BuildFile => build_file_entry file_name file_ref_uuid build_file_uuid
  | FileRef => file_ref_entry file_name file_ref_uuid
  | ViewsGroup => group_entry file_name file_ref_uuid
  | SourcesPhase => sources_entry file_name build_file_uuid
  end.

Definition sub_step (k : section_id) (content : text) : text :=
  insert_after (pattern_of k) (entry_of k) content.

(** The sub-steps applied in a given order, each to the text left by the
    one before. *)
Definition run_order (order : list section_id) (content : text) : text :=
  fold_left (fun c k => sub_step k c) order content.

(** The text a sub-step of the script searches. *)
Definition before (k : section_id) (content : text) : text :=
  match k with
  | BuildFile => content
  | FileRef => run_order [BuildFile] content
  | ViewsGroup => run_order [BuildFile; FileRef] content
  | SourcesPhase => run_order [BuildFile; FileRef; ViewsGroup] content
  end.

Definition found (k : section_id) (content : text) : bool :=
  match search (pattern_of k) content with
  | Some _ => true
  | None => false
  end.

(** Does sub-step [k] of the script find its anchor when its turn comes? *)
Definition found_at_turn (k : section_id) (content : text) : bool :=
  found k (before k content).

(** The sub-steps of [order] that find their anchor when run on [content]. *)
Fixpoint hits (order : list section_id) (content : text) : list section_id :=
  match order with
  | [] => []
  | k :: rest =>
      if found k content then k :: hits rest (sub_step k content)
      else hits rest (sub_step k content)
  end.

(** [new] is [old] after the lines of the listed sections went in, one
    after the other, each right after a text matching its anchor. *)
Inductive insertions : list section_id -> text -> text -> Prop :=
| insertions_nil c : insertions [] c c
| insertions_cons k ks c c1 c' :
    inserted_after (pattern_of k) (entry_of k) c c1 ->
    insertions ks c1 c' ->
    insertions (k :: ks) c c'.

Definition total_length (ks : list section_id) : nat :=
  list_sum (map (fun k => length (entry_of k)) ks).

(** Every sub-step of the script finds its anchor when its turn comes. *)
Definition all_found_at_turn (content : text) : bool :=
  forallb (fun k => found_at_turn k content) implemented_order.

(** Sub-step [k] of the script does not find its anchor when its turn
    comes, the other three do. *)
Definition only_missing (k : section_id) (content : text) : bool :=
  forallb (fun j => Bool.eqb (found_at_turn j content)
                             (if section_id_eq_dec j k then false else true))
          implemented_order.

(** Where a sub-step would insert. *)
Definition anchor_end (k : section_id) (content : text) : option nat :=
  option_map m_end (search (pattern_of k) content).

(** Where an anchor ending at [qb] is expected after a line of length [la]
    went in at [qa]. *)
Definition moved (qa : option nat) (la : nat) (qb : option nat) : option nat :=
  match qa, qb with
  | Some a, Some b => if a <? b then Some (b + la) else Some b
  | _, _ => qb
  end.

(** No insertion changes whether or where another sub-step finds its
    anchor: whichever sub-steps [done] ran first, the line of [a] leaves the
    anchor of [b] in place, moved right by the length of that line when the
    line went in before it. *)
Definition stable_anchors (content : text) : Prop :=
  forall done a b, NoDup (a :: b :: done) ->
    anchor_end b (sub_step a (run_order done content)) =
    moved (anchor_end a (run_order done content)) (length (entry_of a))
          (anchor_end b (run_order done content)).

End SubSteps.

(** ** Notions the statements use *)

Definition upper_hex_digits : text := lit "0123456789ABCDEF".
Definition lower_hex_digits : text := lit "0123456789abcdef".

(** The hexadecimal digit of a number below 16, as ['%x'] prints it. *)
Definition hex_digit (v : N) : ascii := nth (N.to_nat v) lower_hex_digits "0"%char.

(** The [k] lowest hexadecimal digits of [n], the most significant first. *)
Fixpoint hex_digits (k : nat) (n : N) : text :=
  match k with
  | 0 => []
  | S k' => hex_digits k' (n / 16) ++ [hex_digit (n mod 16)]
  end.

(** The same digits as a [uint], the least significant first. *)
Definition cons_digit (v : N) (d : uint) : uint :=
  match v with
  | 0 => D0 d | 1 => D1 d | 2 => D2 d | 3 => D3 d
  | 4 => D4 d | 5 => D5 d | 6 => D6 d | 7 => D7 d
  | 8 => D8 d | 9 => D9 d | 10 => Da d | 11 => Db d
  | 12 => Dc d | 13 => Dd d | 14 => De d | _ => Df d
  end%N.

Fixpoint little_digits (k : nat) (n : N) : uint :=
  match k with
  | 0 => Nil
  | S k' => cons_digit (n mod 16) (little_digits k' (n / 16))
  end.

(** The number of newline characters, that is, of complete lines. *)
Definition newlines (s : text) : nat := count_occ ascii_dec s NL.

(** The literal text every match of a section's anchor ends with. *)
Definition anchor_tail (k : section_id) : text :=
  match k with
  | BuildFile => lit "/* Begin PBXBuildFile section */" ++ [NL]
  | FileRef => lit "/* Begin PBXFileReference section */" ++ [NL]
  | ViewsGroup => lit "children = (" ++ [NL]
  | SourcesPhase => lit "files = (" ++ [NL]
  end.


(** No insertion made right after a word ending in [tail] can fall strictly
    inside [zone]: no proper, non-empty prefix of [zone] ends the way [tail]
    ends. *)
Definition zone_safe (zone tail : text) : bool :=
  forallb (fun j => negb (starts_with (rev tail) (rev (firstn j zone)) ||
                          starts_with (rev (firstn j zone)) (rev tail)))
          (seq 1 (length zone - 1)).

(** A pattern none of whose matches can hold a closing brace. *)
Definition brace_free (p : regex) : bool :=
  forallb (fun it => match it with
                     | Lit l => forallb (fun x => negb (Ascii.eqb x "}"%char)) l
                     | PlusNot c => Ascii.eqb c "}"%char
                     end) p.

(** The text the anchor of section [k] matches in [content]. *)
Definition matched_text (k : section_id) (content : text) : option text :=
  match search (pattern_of k) content with
  | Some m => Some (firstn (m_end m - m_start m) (skipn (m_start m) content))
  | None => None
  end.

(** The anchor of [k] is in [content], and no anchor, whichever section it
    belongs to, can end strictly inside the text it matches. *)
Definition anchor_clear (k : section_id) (content : text) : bool :=
  match matched_text k content with
  | Some w => forallb (fun j => zone_safe w (anchor_tail j)) implemented_order
  | None => false
  end.

(** All four anchors are there, none reaching into another. *)
Definition separated (content : text) : bool :=
  forallb (fun k => anchor_clear k content) implemented_order.

(** The same, leaving the anchor of [k] out. *)
Definition separated_but (k : section_id) (content : text) : bool :=
  forallb (fun j => if section_id_eq_dec j k then true else anchor_clear j content)
          implemented_order.

(** Every anchor that is in [content] is matched by a text no anchor,
    whichever section it belongs to, can end strictly inside. *)
Definition unnested (content : text) : bool :=
  forallb (fun k => match matched_text k content with
                    | Some w => forallb (fun j => zone_safe w (anchor_tail j))
                                        implemented_order
                    | None => true
                    end) implemented_order.

(** A file name or an identifier with no newline, no opening brace and no
    semicolon in it. *)
Definition plain (s : text) : bool :=
  forallb (fun x => negb (Ascii.eqb x NL || Ascii.eqb x "{"%char || Ascii.eqb x ";"%char)) s.

(** The pattern starts with a repetition. *)
Definition starts_plus (p : regex) : Prop :=
  match p with
  | PlusNot _ :: _ => True
  | _ => False
  end.

(** No occurrence of [l] starts inside [e]. *)
Definition no_start_in (l e : text) : Prop :=
  forall t t2 r1 r2, e = t ++ t2 -> t2 <> [] -> l ++ r1 = t2 ++ r2 -> False.

(** The literals of [p] cannot share a character with the line [e]: they
    hold no tab, none of them starts inside [e], and one that ends with a
    newline is not followed by a repetition. *)
Fixpoint inert_for (e : text) (p : regex) : Prop :=
  match p with
  | [] => True
  | Lit l :: p' =>
      l <> [] /\ ~ In TAB l /\ no_start_in l e /\
      ((exists l0, l = l0 ++ [NL]) -> ~ starts_plus p') /\ inert_for e p'
  | PlusNot c :: p' => ~ starts_plus p' /\ inert_for e p'
  end.

(** ** The line formats of the interface table *)

Module Table.

Section Lines.

Variables ID1 ID2 NAME : text.

Definition tabs (n : nat) : text := repeat TAB n.
Definition DQ : ascii := "034"%char.

Definition build_file_line : text :=
  tabs 2 ++ ID2 ++ lit " /* " ++ NAME ++ lit " in Sources */ = {isa = PBXBuildFile; fileRef = "
    ++ ID1 ++ lit " /* " ++ NAME ++ lit " */; };".

Definition file_reference_line : text :=
  tabs 2 ++ ID1 ++ lit " /* " ++ NAME ++
  lit " */ = {isa = PBXFileReference; lastKnownFileType = sourcecode.swift; path = "
    ++ NAME ++ lit "; sourceTree = " ++ [DQ] ++ lit "<group>" ++ [DQ] ++ lit "; };".

Definition group_child_line : text :=
  tabs 4 ++ ID1 ++ lit " /* " ++ NAME ++ lit " */,".

Definition build_phase_line : text :=
  tabs 4 ++ ID2 ++ lit " /* " ++ NAME ++ lit " in Sources */,".

Definition line_of (k : section_id) : text :=
  match k with
  | BuildFile => build_file_line
  | FileRef => file_reference_line
  | ViewsGroup => group_child_line
  | SourcesPhase => build_phase_line
  end.

End Lines.

End Table.

(** ** Sample inputs *)

Module Samples.

Definition ID_A : text := lit "AAAAAAAAAAAAAAAAAAAAAAAA".
Definition ID_B : text := lit "BBBBBBBBBBBBBBBBBBBBBBBB".

Definition ln (tabs : nat) (s : string) : text := repeat TAB tabs ++ lit s ++ [NL].

Definition blank : text := [NL].

Definition quoted_group : string :=
  String "034"%char ("<group>" ++ String "034"%char EmptyString)%string.

(** The end-to-end scenario: [Foo.swift] and an empty build-file section. *)
Definition foo_name : text := lit "Foo.swift".
Definition foo_path : text := lit "A/Foo.swift".
Definition empty_build_file_section : text := ln 0 "/* Begin PBXBuildFile section */".
Definition foo_build_file_line : text :=
  ln 2 "BBBBBBBBBBBBBBBBBBBBBBBB /* Foo.swift in Sources */ = {isa = PBXBuildFile; fileRef = AAAAAAAAAAAAAAAAAAAAAAAA /* Foo.swift */; };".

(** What comes before and after that section in a project file. *)
Definition foo_head : text :=
  ln 0 "// !$*UTF8*$!" ++
  ln 0 "{" ++
  ln 1 "objects = {" ++
  blank.
Definition foo_rest : text :=
  ln 0 "/* End PBXBuildFile section */" ++
  blank ++
  ln 0 "/* Begin PBXFileReference section */" ++
  ln 0 "/* End PBXFileReference section */" ++
  ln 1 "};" ++
  ln 0 "}".

(** A small project file laid out the way Xcode writes it. *)
Definition project : text :=
  ln 0 "// !$*UTF8*$!" ++
  ln 0 "{" ++
  ln 1 "archiveVersion = 1;" ++
  ln 1 "objects = {" ++
  blank ++
  ln 0 "/* Begin PBXBuildFile section */" ++
  ln 2 "1A /* ContentView.swift in Sources */ = {isa = PBXBuildFile; fileRef = 2A /* ContentView.swift */; };" ++
  ln 0 "/* End PBXBuildFile section */" ++
  blank ++
  ln 0 "/* Begin PBXFileReference section */" ++
  ln 2 ("2A /* ContentView.swift */ = {isa = PBXFileReference; path = ContentView.swift; sourceTree = "
        ++ quoted_group ++ "; };") ++
  ln 0 "/* End PBXFileReference section */" ++
  blank ++
  ln 0 "/* Begin PBXGroup section */" ++
  ln 2 "3A /* Views */ = {" ++
  ln 3 "isa = PBXGroup;" ++
  ln 3 "children = (" ++
  ln 4 "2A /* ContentView.swift */," ++
  ln 3 ");" ++
  ln 3 "path = Views;" ++
  ln 2 "};" ++
  ln 0 "/* End PBXGroup section */" ++
  blank ++
  ln 0 "/* Begin PBXSourcesBuildPhase section */" ++
  ln 2 "4A /* Sources */ = {" ++
  ln 3 "isa = PBXSourcesBuildPhase;" ++
  ln 3 "files = (" ++
  ln 4 "1A /* ContentView.swift in Sources */," ++
  ln 3 ");" ++
  ln 2 "};" ++
  ln 0 "/* End PBXSourcesBuildPhase section */" ++
  ln 1 "};" ++
  ln 0 "}".

(** The same project without its [Views] group. *)
Definition project_no_group : text :=
  ln 0 "/* Begin PBXBuildFile section */" ++
  ln 0 "/* End PBXBuildFile section */" ++
  ln 0 "/* Begin PBXFileReference section */" ++
  ln 0 "/* End PBXFileReference section */" ++
  ln 0 "/* Begin PBXSourcesBuildPhase section */" ++
  ln 2 "4A /* Sources */ = {" ++
  ln 3 "isa = PBXSourcesBuildPhase;" ++
  ln 3 "files = (" ++
  ln 3 ");" ++
  ln 2 "};" ++
  ln 0 "/* End PBXSourcesBuildPhase section */".

(** All four anchors are there, but the build-file section marker sits
    between the opening brace of the [Views] group and its children list. *)
Definition nested : text :=
  ln 0 "/* Begin PBXFileReference section */" ++
  ln 0 "/* Views */ = {" ++
  ln 0 "/* Begin PBXBuildFile section */" ++
  ln 0 "children = (" ++
  ln 0 "/* Sources */ = {" ++
  ln 0 "isa = PBXSourcesBuildPhase;" ++
  ln 0 "files = (".

(** No [Views] group, and the build-file section marker sits inside the
    sources build phase. *)
Definition nested_no_group : text :=
  ln 0 "/* Begin PBXFileReference section */" ++
  ln 0 "/* Sources */ = {" ++
  ln 0 "isa = PBXSourcesBuildPhase;" ++
  ln 0 "/* Begin PBXBuildFile section */" ++
  ln 0 "files = (".


(** The brace-free stretch of a group holds its children opener twice. *)
Definition two_openers : text :=
  ln 0 "/* Views */ = {" ++
  ln 0 "children = (" ++
  ln 0 "children = (" ++
  ln 0 "};".

(** A manifest with the two section markers only, and a file name that
    holds a section marker. *)
Definition two_sections : text :=
  ln 0 "/* Begin PBXBuildFile section */" ++ ln 0 "/* End PBXBuildFile section */" ++
  ln 0 "/* Begin PBXFileReference section */" ++ ln 0 "/* End PBXFileReference section */".

Definition odd_name : text :=
  lit "x */" ++ [NL] ++ lit "/* Begin PBXFileReference section */" ++ [NL] ++ lit "/* y".

(** A 128-bit draw, a file system with the sample project, and one whose
    project file holds no anchor. *)
Definition sample_draw : N := 123456789012345678901234567890123456789.



End Samples.

(** * Lists *)

Module ListFacts.

Lemma Forall_firstn (A : Type) (P : A -> Prop) n (l : list A) :
  Forall P l -> Forall P (firstn n l).
Proof.
  intros H. revert n. induction H; intros [|n]; simpl; auto.
Qed.

Lemma Forall_skipn (A : Type) (P : A -> Prop) n (l : list A) :
  Forall P l -> Forall P (skipn n l).
Proof.
  intros H. revert n. induction H; intros [|n]; simpl; auto.
Qed.

End ListFacts.

Import ListFacts.

(** * Properties of the matcher *)

Module ReFacts.

Lemma starts_with_app l r : starts_with l (l ++ r) = true.
Proof.
  induction l as [|a l IH]; simpl; [reflexivity|].
  now rewrite Ascii.eqb_refl, IH.
Qed.

Lemma starts_with_inv l s :
  starts_with l s = true -> s = l ++ skipn (length l) s.
Proof.
  revert s; induction l as [|a l IH]; intros [|b s]; simpl; try easy.
  intros H. apply andb_prop in H as [Hab Hl].
  apply Ascii.eqb_eq in Hab. subst b. f_equal. now apply IH.
Qed.

(** A successful [[^c]+] took some [j >= 1] characters, none of them [c],
    and the continuation accepted what follows. *)
Lemma plus_not_sound c k s n :
  plus_not c k s = Some n ->
  exists j m, 1 <= j /\ j <= length s /\ Forall (fun x => x <> c) (firstn j s) /\
              k (skipn j s) = Some m /\ n = j + m.
Proof.
  revert n; induction s as [|x s IH]; simpl; intros n H; [discriminate|].
  destruct (Ascii.eqb_spec x c) as [|Hx]; [discriminate|].
  destruct (plus_not c k s) as [n'|] eqn:E.
  - injection H as <-.
    destruct (IH _ eq_refl) as (j & m & Hj1 & Hj2 & Hall & Hk & ->).
    exists (S j), m. simpl. repeat split; try lia; auto.
  - destruct (k s) as [m|] eqn:Ek; simpl in H; [|discriminate].
    injection H as <-. exists 1, m. simpl. repeat split; try lia; auto.
Qed.

Lemma match_here_sound p : forall s n,
  match_here p s = Some n -> n <= length s /\ matches p (firstn n s).
Proof.
  induction p as [|[l|c] p IH]; simpl; intros s n H.
  - injection H as <-. split; [lia|constructor].
  - destruct (starts_with l s) eqn:E; [|discriminate].
    apply starts_with_inv in E.
    destruct (match_here p (skipn (length l) s)) as [m|] eqn:Em; [|discriminate].
    injection H as <-. apply IH in Em as [Hm1 Hm2].
    rewrite length_skipn in Hm1.
    assert (Hl : length l <= length s).
    { rewrite E, length_app. lia. }
    split; [lia|].
    rewrite E at 1. rewrite firstn_app, firstn_all2 by lia.
    replace (length l + m - length l) with m by lia.
    now constructor.
  - apply plus_not_sound in H as (j & m & Hj1 & Hj2 & Hall & Hk & ->).
    apply IH in Hk as [Hm1 Hm2]. rewrite length_skipn in Hm1.
    split; [lia|].
    rewrite <- (firstn_skipn j s) at 1.
    rewrite firstn_app, length_firstn, Nat.min_l by lia.
    rewrite firstn_firstn, Nat.min_r by lia.
    replace (j + m - j) with m by lia.
    constructor; auto.
    destruct s; simpl in *; [lia|]. destruct j; [lia|]. discriminate.
Qed.

Lemma plus_not_complete c k u rest :
  u <> [] -> Forall (fun x => x <> c) u -> k rest <> None ->
  plus_not c k (u ++ rest) <> None.
Proof.
  intros Hne Hall Hk. induction u as [|x u IH]; [easy|].
  simpl. inversion Hall as [|? ? Hx Hu]; subst.
  destruct (Ascii.eqb_spec x c); [contradiction|].
  destruct u as [|y u].
  - simpl. destruct (plus_not c k rest); [discriminate|].
    destruct (k rest); [discriminate|contradiction].
  - destruct (plus_not c k ((y :: u) ++ rest)) eqn:E; [discriminate|].
    exfalso. now apply IH.
Qed.

Lemma match_here_complete p w :
  matches p w -> forall rest, match_here p (w ++ rest) <> None.
Proof.
  induction 1 as [|l p w Hm IH|c p u w Hne Hall Hm IH]; intros rest; simpl.
  - discriminate.
  - rewrite <- app_assoc, starts_with_app.
    rewrite skipn_app, skipn_all, Nat.sub_diag. simpl.
    specialize (IH rest). destruct (match_here p (w ++ rest)); [discriminate|contradiction].
  - rewrite <- app_assoc. apply plus_not_complete; auto.
Qed.

Lemma matches_at_iff p s i :
  matches_at p s i <-> i <= length s /\ match_here p (skipn i s) <> None.
Proof.
  split.
  - intros (w & rest & E & Hi & Hm). split; [assumption|].
    rewrite E. now apply match_here_complete.
  - intros [Hi H]. destruct (match_here p (skipn i s)) as [n|] eqn:E; [|contradiction].
    apply match_here_sound in E as [Hn Hm].
    exists (firstn n (skipn i s)), (skipn n (skipn i s)).
    now rewrite firstn_skipn.
Qed.

Lemma search_from_some p : forall s i m,
  search_from p i s = Some m ->
  exists j n, m = {| m_start := i + j; m_end := i + j + n |} /\ j <= length s /\
              match_here p (skipn j s) = Some n /\
              forall j', j' < j -> match_here p (skipn j' s) = None.
Proof.
  induction s as [|x s IH]; intros i m; simpl.
  - destruct (match_here p []) as [n|] eqn:E; [|discriminate].
    intros [= <-]. exists 0, n. rewrite Nat.add_0_r. simpl. repeat split; auto; lia.
  - destruct (match_here p (x :: s)) as [n|] eqn:E.
    + intros [= <-]. exists 0, n. rewrite Nat.add_0_r. simpl. repeat split; auto; lia.
    + intros H. apply IH in H as (j & n & -> & Hj & Hn & Hmin).
      exists (S j), n. simpl. repeat split; try lia; auto.
      * f_equal; lia.
      * intros [|j'] Hlt; simpl; [assumption|]. apply Hmin. lia.
Qed.

Lemma search_from_none p : forall s i,
  search_from p i s = None ->
  forall j, j <= length s -> match_here p (skipn j s) = None.
Proof.
  induction s as [|x s IH]; intros i; simpl.
  - destruct (match_here p []) eqn:E; [discriminate|].
    intros _ j Hj. now replace j with 0 by lia.
  - destruct (match_here p (x :: s)) eqn:E; [discriminate|].
    intros H [|j] Hj; simpl; [assumption|]. apply (IH _ H). lia.
Qed.

(** [search] returns the match that starts leftmost; its text matches the
    pattern. *)
Lemma search_some p s m :
  search p s = Some m ->
  m_start m <= m_end m /\ m_end m <= length s /\
  matches p (firstn (m_end m - m_start m) (skipn (m_start m) s)) /\
  match_here p (skipn (m_start m) s) = Some (m_end m - m_start m) /\
  forall j, j < m_start m -> ~ matches_at p s j.
Proof.
  unfold search. intros H.
  apply search_from_some in H as (j & n & -> & Hj & Hn & Hmin). simpl.
  destruct (match_here_sound _ _ Hn) as [Hn1 Hn2]. rewrite length_skipn in Hn1.
  replace (j + n - j) with n by lia.
  repeat split; try lia; auto.
  intros j' Hlt Hat. apply matches_at_iff in Hat as [_ Hat].
  now rewrite (Hmin _ Hlt) in Hat.
Qed.

Lemma search_none p s : search p s = None <-> forall j, ~ matches_at p s j.
Proof.
  split.
  - intros H j Hat. apply matches_at_iff in Hat as [Hj Hat].
    apply Hat. eapply search_from_none; eauto.
  - intros H. destruct (search p s) as [m|] eqn:E; [|reflexivity].
    exfalso. apply search_some in E as (H1 & H2 & H3 & H4 & _).
    apply (H (m_start m)). apply matches_at_iff. split; [lia|].
    now rewrite H4.
Qed.

(** Cutting the searched text at the match. *)
Lemma search_split p s m :
  search p s = Some m ->
  exists pre w post,
    s = pre ++ w ++ post /\ length pre = m_start m /\
    length (pre ++ w) = m_end m /\ matches p w.
Proof.
  intros H. apply search_some in H as (H1 & H2 & H3 & _).
  exists (firstn (m_start m) s),
         (firstn (m_end m - m_start m) (skipn (m_start m) s)),
         (skipn (m_end m - m_start m) (skipn (m_start m) s)).
  rewrite firstn_skipn, firstn_skipn. split; [reflexivity|].
  rewrite length_app, !length_firstn, length_skipn.
  repeat split; try lia. assumption.
Qed.

Lemma search_found p pre w post :
  matches p w -> search p (pre ++ w ++ post) <> None.
Proof.
  intros Hm H. rewrite search_none in H. apply (H (length pre)).
  exists w, post. rewrite skipn_app, skipn_all, Nat.sub_diag. simpl.
  repeat split; auto. rewrite length_app. lia.
Qed.

(** Greedy: [[^c]+] keeps the largest number of characters after which the
    rest of the pattern still matches. *)
Lemma plus_not_greedy c k s n :
  plus_not c k s = Some n ->
  exists j m,
    n = j + m /\ 1 <= j /\ j <= length s /\ Forall (fun x => x <> c) (firstn j s) /\
    k (skipn j s) = Some m /\
    forall j', 1 <= j' -> j' <= length s -> Forall (fun x => x <> c) (firstn j' s) ->
               k (skipn j' s) <> None -> j' <= j.
Proof.
  revert n; induction s as [|x s IH]; simpl; intros n H; [discriminate|].
  destruct (Ascii.eqb_spec x c) as [|Hx]; [discriminate|].
  destruct (plus_not c k s) as [n'|] eqn:E.
  - injection H as <-.
    destruct (IH _ eq_refl) as (j & m & -> & Hj1 & Hj2 & Hall & Hk & Hmax).
    exists (S j), m. simpl. repeat split; try lia; auto.
    intros [|[|j']] H1 H2 H3 H4; try lia.
    apply le_n_S. apply Hmax; simpl in *; try lia; auto.
    now inversion H3.
  - destruct (k s) as [m|] eqn:Ek; simpl in H; [|discriminate].
    injection H as <-. exists 1, m. simpl. repeat split; try lia; auto.
    intros [|[|j']] H1 H2 H3 H4; try lia. exfalso.
    simpl in H2, H3, H4. inversion H3 as [|? ? _ H3']; subst.
    assert (Hne : firstn (S j') s <> []) by (destruct s; simpl in *; [lia|discriminate]).
    pose proof (@plus_not_complete c k (firstn (S j') s) (skipn (S j') s) Hne H3' H4) as Hc.
    now rewrite firstn_skipn, E in Hc.
Qed.

Lemma match_lit_inv l p s n :
  match_here (Lit l :: p) s = Some n ->
  exists n1, s = l ++ skipn (length l) s /\
             match_here p (skipn (length l) s) = Some n1 /\ n = length l + n1.
Proof.
  simpl. destruct (starts_with l s) eqn:E; [|discriminate].
  apply starts_with_inv in E.
  destruct (match_here p (skipn (length l) s)) as [n1|]; [|discriminate].
  intros [= <-]. now exists n1.
Qed.

Lemma longest_nil : longest [].
Proof. intros s n w r _ _ H. inversion H. simpl. lia. Qed.

Lemma longest_lit_cons l p : longest p -> longest (Lit l :: p).
Proof.
  intros Hp s n w r H Hs Hw.
  apply match_lit_inv in H as (n1 & E & Hn1 & ->).
  inversion Hw as [|? ? w1 Hw1|]; subst.
  rewrite length_app. apply Nat.add_le_mono_l.
  apply (Hp (skipn (length l) ((l ++ w1) ++ r)) n1 w1 r); auto.
  now rewrite <- app_assoc, skipn_app, skipn_all, Nat.sub_diag.
Qed.

Lemma longest_plus_lit c l : longest [PlusNot c; Lit l].
Proof.
  intros s n w r H Hs Hw. cbn [match_here] in H.
  apply plus_not_greedy in H as (j & m & -> & Hj1 & Hj2 & Hall & Hk & Hmax).
  change (match_here [Lit l] (skipn j s) = Some m) in Hk.
  apply match_lit_inv in Hk as (n1 & _ & Hn1 & ->). injection Hn1 as <-.
  inversion Hw as [| |? ? u w1 Hu Hfa Hw1]; subst.
  inversion Hw1 as [|? ? w2 Hw2|]; subst. inversion Hw2; subst.
  rewrite app_nil_r in *.
  rewrite !length_app.
  assert (length u <= j); [|lia].
  apply Hmax.
  - destruct u; [contradiction|simpl; lia].
  - rewrite !length_app. lia.
  - rewrite <- !app_assoc, firstn_app, firstn_all, Nat.sub_diag, firstn_O, app_nil_r.
    assumption.
  - rewrite <- !app_assoc, skipn_app, skipn_all, Nat.sub_diag. simpl.
    now rewrite starts_with_app.
Qed.

Lemma longest_plus_lit_plus_lit c l2 l3 :
  ~ In c l2 -> longest [PlusNot c; Lit l2; PlusNot c; Lit l3].
Proof.
  intros Hl2 s n w r H Hs Hw. cbn [match_here] in H.
  apply plus_not_greedy in H as (j1 & m1 & -> & Hj1 & Hj1' & Hall1 & Hk1 & Hmax1).
  change (match_here (Lit l2 :: [PlusNot c; Lit l3]) (skipn j1 s) = Some m1) in Hk1.
  apply match_lit_inv in Hk1 as (n2 & E2 & Hn2 & ->).
  rewrite skipn_skipn in Hn2. cbn [match_here] in Hn2.
  apply plus_not_greedy in Hn2 as (j2 & m2 & -> & Hj2 & Hj2' & Hall2 & Hk2 & Hmax2).
  change (match_here [Lit l3] (skipn j2 (skipn (length l2 + j1) s)) = Some m2) in Hk2.
  apply match_lit_inv in Hk2 as (n3 & _ & Hn3 & ->). injection Hn3 as <-.
  inversion Hw as [| |? ? u1 w1 Hu1 Hfa1 Hw1]; subst.
  inversion Hw1 as [|? ? w2 Hw2|]; subst.
  inversion Hw2 as [| |? ? u2 w3 Hu2 Hfa2 Hw3]; subst.
  inversion Hw3 as [|? ? w4 Hw4|]; subst. inversion Hw4; subst.
  rewrite app_nil_r in *.
  set (s := (u1 ++ l2 ++ u2 ++ l3) ++ r) in *.
  assert (Hs1 : s = u1 ++ (l2 ++ u2 ++ l3) ++ r) by (unfold s; now rewrite <- !app_assoc).
  assert (Hs3 : s = (u1 ++ l2 ++ u2) ++ l3 ++ r) by (unfold s; now rewrite <- !app_assoc).
  assert (Hlen : length s = length u1 + length l2 + length u2 + length l3 + length r)
    by (unfold s; rewrite !length_app; lia).
  assert (H1 : length u1 <= j1).
  { apply Hmax1.
    - destruct u1; [contradiction|simpl; lia].
    - lia.
    - now rewrite Hs1, firstn_app, firstn_all, Nat.sub_diag, firstn_O, app_nil_r.
    - change (match_here [Lit l2; PlusNot c; Lit l3] (skipn (length u1) s) <> None).
      rewrite Hs1, skipn_app, skipn_all, Nat.sub_diag. cbn [skipn app].
      now apply match_here_complete. }
  rewrite !length_app.
  destruct (le_lt_dec (length u1 + length l2 + length u2) (j1 + length l2)) as [|Hgt];
    [lia|].
  assert (H2 : length u1 + length l2 + length u2 - (length l2 + j1) <= j2); [|lia].
  rewrite length_skipn in Hj2'.
  apply Hmax2.
  - lia.
  - rewrite length_skipn. lia.
  - rewrite firstn_skipn_comm.
    replace (length l2 + j1 + (length u1 + length l2 + length u2 - (length l2 + j1)))
      with (length (u1 ++ l2 ++ u2)) by (rewrite !length_app; lia).
    apply Forall_skipn.
    rewrite Hs3, firstn_app, firstn_all, Nat.sub_diag, firstn_O, app_nil_r.
    repeat (apply Forall_app; split); auto.
    apply Forall_forall. intros x Hx ->. contradiction.
  - rewrite skipn_skipn.
    replace (length u1 + length l2 + length u2 - (length l2 + j1) + (length l2 + j1))
      with (length (u1 ++ l2 ++ u2)) by (rewrite !length_app; lia).
    rewrite Hs3, skipn_app, skipn_all, Nat.sub_diag. simpl.
    now rewrite starts_with_app.
Qed.

Lemma search_from_first p : forall x i0 i n,
  match_here p (skipn i x) = Some n -> i <= length x ->
  (forall j, j < i -> match_here p (skipn j x) = None) ->
  search_from p i0 x = Some {| m_start := i0 + i; m_end := i0 + i + n |}.
Proof.
  induction x as [|c x IH]; intros i0 i n Hn Hi Hmin.
  - simpl in Hi. replace i with 0 in * by lia. simpl in *. rewrite Hn.
    now rewrite Nat.add_0_r.
  - destruct i as [|i].
    + simpl in *. rewrite Hn. now rewrite Nat.add_0_r.
    + pose proof (Hmin 0 (Nat.lt_0_succ i)) as H0. simpl in H0.
      cbn [search_from]. rewrite H0.
      rewrite (IH (S i0) i n); simpl in *; auto; try lia.
      * f_equal. f_equal; lia.
      * intros j Hj. apply (Hmin (S j)). lia.
Qed.

(** The first place where the pattern matches is where [search] finds it. *)
Lemma search_first p x i n :
  match_here p (skipn i x) = Some n -> i <= length x ->
  (forall j, j < i -> ~ matches_at p x j) ->
  search p x = Some {| m_start := i; m_end := i + n |}.
Proof.
  intros Hn Hi Hmin. unfold search.
  apply (@search_from_first p x 0 i n); auto.
  intros j Hj. destruct (match_here p (skipn j x)) eqn:E; [exfalso|reflexivity].
  apply (Hmin j Hj). apply matches_at_iff. split; [lia|]. now rewrite E.
Qed.

Lemma matches_at_split p x j :
  matches_at p x j <->
  exists a w b, x = a ++ w ++ b /\ length a = j /\ matches p w.
Proof.
  split.
  - intros (w & rest & E & Hj & Hm). exists (firstn j x), w, rest.
    rewrite <- E, firstn_skipn, length_firstn. repeat split; auto. lia.
  - intros (a & w & b & -> & <- & Hm). exists w, b.
    rewrite skipn_app, skipn_all, Nat.sub_diag. simpl.
    repeat split; auto. rewrite length_app. lia.
Qed.

End ReFacts.

Import ReFacts.

(** * Properties of the sub-steps *)

(** Every entry is the table's line followed by a newline. *)
Lemma entry_of_table file_name file_ref_uuid build_file_uuid k :
  entry_of file_name file_ref_uuid build_file_uuid k =
  Table.line_of file_ref_uuid build_file_uuid file_name k ++ [NL].
Proof.
  destruct k; cbv [entry_of Table.line_of build_file_entry file_ref_entry
    group_entry sources_entry Table.build_file_line Table.file_reference_line
    Table.group_child_line Table.build_phase_line Table.tabs Table.DQ repeat];
    repeat rewrite <- app_assoc; reflexivity.
Qed.

(** * Properties of the identifier generator *)

Module UuidFacts.

Lemma hex_digits_lower d :
  Forall (fun x => In x lower_hex_digits) (lit (NilEmpty.string_of_uint d)).
Proof.
  induction d; simpl; constructor; auto; simpl; tauto.
Qed.

Lemma format_032x_lower i :
  Forall (fun x => In x lower_hex_digits) (Uuid.format_032x i).
Proof.
  unfold Uuid.format_032x. apply Forall_app. split.
  - apply Forall_forall. intros x Hx. apply repeat_spec in Hx. subst. simpl. tauto.
  - apply hex_digits_lower.
Qed.

Lemma format_032x_length i : 32 <= length (Uuid.format_032x i).
Proof.
  unfold Uuid.format_032x. rewrite length_app, repeat_length. lia.
Qed.

Lemma replace_char_keeps old s :
  Forall (fun x => x <> old) s -> replace_char old [] s = s.
Proof.
  induction 1 as [|x s Hx _ IH]; simpl; [reflexivity|].
  fold (replace_char old [] s). rewrite IH.
  destruct (Ascii.eqb_spec x old); [contradiction|reflexivity].
Qed.

Lemma replace_char_app old new s t :
  replace_char old new (s ++ t) = replace_char old new s ++ replace_char old new t.
Proof. apply flat_map_app. Qed.

Lemma lower_hex_no_dash s :
  Forall (fun x => In x lower_hex_digits) s -> Forall (fun x => x <> "-"%char) s.
Proof.
  apply Forall_impl. intros x Hx ->. simpl in Hx.
  repeat (destruct Hx as [Hx|Hx]; [discriminate Hx|]). exact Hx.
Qed.

(** Removing the hyphens from the 8-4-4-4-12 form gives the 32 digits back. *)
Lemma str_without_hyphens i :
  replace_char "-"%char [] (Uuid.str i) = Uuid.format_032x i.
Proof.
  unfold Uuid.str. set (hex := Uuid.format_032x i).
  assert (Hh : Forall (fun x => x <> "-"%char) hex)
    by apply lower_hex_no_dash, format_032x_lower.
  rewrite !replace_char_app.
  rewrite (replace_char_keeps (s := firstn 8 hex)),
    (replace_char_keeps (s := firstn 4 (skipn 8 hex))),
    (replace_char_keeps (s := firstn 4 (skipn 12 hex))),
    (replace_char_keeps (s := firstn 4 (skipn 16 hex))),
    (replace_char_keeps (s := skipn 20 hex))
    by auto using Forall_firstn, Forall_skipn.
  simpl. clearbody hex. clear Hh.
  do 20 (destruct hex as [|? hex]; [reflexivity|]). reflexivity.
Qed.

Lemma join_chars s : join [] (chars s) = s.
Proof.
  induction s as [|x s IH]; [reflexivity|].
  destruct s as [|y s]; [reflexivity|].
  change (join [] (chars (x :: y :: s))) with ([x] ++ [] ++ join [] (chars (y :: s))).
  now rewrite IH.
Qed.

Lemma upper_char_hex x : In x lower_hex_digits -> In (upper_char x) upper_hex_digits.
Proof.
  intros H. simpl in H.
  repeat (destruct H as [H|H]; [subst x; vm_compute; tauto|]). contradiction.
Qed.

Lemma generate_uuid_chars r :
  Forall (fun x => In x upper_hex_digits) (generate_uuid r).
Proof.
  unfold generate_uuid, upper. rewrite str_without_hyphens, join_chars.
  apply Forall_map. apply Forall_firstn.
  generalize (format_032x_lower (Uuid.uuid4 r)).
  apply Forall_impl. intros x. apply upper_char_hex.
Qed.


End UuidFacts.

(** * Properties of one block *)

Lemma splice_length c q e : length (splice c q e) = length c + length e.
Proof.
  unfold splice. rewrite !length_app.
  rewrite <- (firstn_skipn q c) at 3. rewrite length_app. lia.
Qed.

Lemma splice_at pre post e : splice (pre ++ post) (length pre) e = pre ++ e ++ post.
Proof.
  unfold splice.
  rewrite firstn_app, firstn_all, Nat.sub_diag, skipn_app, skipn_all, Nat.sub_diag.
  simpl. now rewrite app_nil_r.
Qed.

(** The two ways out of a block. *)
Lemma insert_after_cases p e c :
  (search p c = None /\ insert_after p e c = c) \/
  (exists m pre w post,
     search p c = Some m /\ c = pre ++ w ++ post /\
     length pre = m_start m /\ length (pre ++ w) = m_end m /\ matches p w /\
     insert_after p e c = pre ++ w ++ e ++ post).
Proof.
  unfold insert_after. destruct (search p c) as [m|] eqn:E; [right|left; auto].
  destruct (search_split _ _ E) as (pre & w & post & Hc & Hs & He & Hm).
  exists m, pre, w, post. repeat split; auto.
  rewrite <- He. rewrite Hc at 1. rewrite app_assoc, splice_at.
  now rewrite <- app_assoc.
Qed.

(** A match at the very start is the one [search] returns. *)
Lemma search_at_start p s n :
  match_here p s = Some n -> search p s = Some {| m_start := 0; m_end := n |}.
Proof.
  intros H. unfold search. destruct s; simpl; now rewrite H.
Qed.

(** A block leaves the first [n] characters alone when no match lies within
    them. *)
Lemma insert_after_keeps_prefix p e c n :
  search p (firstn n c) = None -> firstn n (insert_after p e c) = firstn n c.
Proof.
  intros Hnone.
  destruct (insert_after_cases p e c)
    as [[_ ->]|(m & pre & w & post & _ & Hc & _ & He & Hm & ->)]; [reflexivity|].
  subst c. destruct (le_lt_dec (length (pre ++ w)) n) as [Hle|Hlt].
  - exfalso. revert Hnone.
    rewrite (app_assoc pre w post), firstn_app, firstn_all2, <- app_assoc by assumption.
    now apply search_found.
  - rewrite !(app_assoc pre w), !firstn_app.
    replace (n - length (pre ++ w)) with 0 by lia. reflexivity.
Qed.


(** A pattern that ends with a literal only matches words that end with it. *)
Lemma matches_snoc_lit p l w :
  matches (p ++ [Lit l]) w -> exists w0, w = w0 ++ l.
Proof.
  revert w. induction p as [|[a|c] p IH]; intros w H; simpl in H.
  - inversion H as [|? ? w' Hw'|]; subst. inversion Hw'; subst.
    exists []. now rewrite app_nil_r.
  - inversion H as [|? ? w' Hw'|]; subst.
    destruct (IH _ Hw') as [w0 ->]. exists (a ++ w0). now rewrite app_assoc.
  - inversion H as [| |? ? u w' _ _ Hw']; subst.
    destruct (IH _ Hw') as [w0 ->]. exists (u ++ w0). now rewrite app_assoc.
Qed.

(** A word that ends with its only newline survives any insertion made
    right after a newline: the insertion cannot fall inside it. *)
Lemma literal_survives l0 p e c :
  ~ In NL l0 ->
  (forall w, matches p w -> exists w0, w = w0 ++ [NL]) ->
  search [Lit (l0 ++ [NL])] c <> None ->
  search [Lit (l0 ++ [NL])] (insert_after p e c) <> None.
Proof.
  intros Hl0 Hp Hc.
  destruct (insert_after_cases p e c)
    as [[_ ->]|(m & pre & w & post & _ & Ec & _ & _ & Hm & ->)]; [assumption|].
  destruct (search [Lit (l0 ++ [NL])] c) as [m0|] eqn:E0; [clear Hc|contradiction].
  destruct (search_split _ _ E0) as (pre0 & w1 & post0 & Ec0 & _ & _ & Hm0).
  inversion Hm0 as [|? ? w' Hw'|]; subst w1. inversion Hw'; subst w'. clear Hm0 Hw'.
  rewrite app_nil_r in Ec0.
  destruct (Hp _ Hm) as [w0 ->].
  assert (Hlit : matches [Lit (l0 ++ [NL])] ((l0 ++ [NL]) ++ [])) by repeat constructor.
  rewrite app_nil_r in Hlit.
  assert (found_in : forall x y, search [Lit (l0 ++ [NL])] (x ++ l0 ++ NL :: y) <> None).
  { intros x y. change (NL :: y) with ([NL] ++ y). rewrite (app_assoc l0).
    now apply search_found. }
  assert (R : pre ++ (w0 ++ [NL]) ++ e ++ post = (pre ++ w0) ++ NL :: e ++ post)
    by (now rewrite <- !app_assoc).
  assert (E : (pre0 ++ l0) ++ NL :: post0 = (pre ++ w0) ++ NL :: post).
  { transitivity c; [rewrite Ec0|rewrite Ec]; now rewrite <- !app_assoc. }
  rewrite R. clear R Ec Ec0 Hm E0. remember (pre ++ w0) as a eqn:Ea. clear Ea.
  apply app_eq_app in E as [t [[E1 E2]|[E1 E2]]].
  - (* the inserted line comes before the end of the word *)
    destruct t as [|x t]; simpl in E2.
    + injection E2 as ->. rewrite app_nil_r in E1. subst a.
      rewrite <- app_assoc. apply found_in.
    + injection E2 as <- ->.
      apply app_eq_app in E1 as [t1 [[E3 E4]|[E3 E4]]].
      * destruct t1 as [|x t1]; simpl in E4.
        -- exfalso. apply Hl0. rewrite <- E4. now left.
        -- injection E4 as <- ->.
           replace (a ++ NL :: e ++ (t1 ++ l0) ++ NL :: post0)
             with ((a ++ NL :: e ++ t1) ++ l0 ++ NL :: post0)
             by (now rewrite <- !app_assoc; simpl; rewrite <- !app_assoc).
           apply found_in.
      * exfalso. apply Hl0. rewrite E4. apply in_or_app. right. now left.
  - (* the inserted line comes after the word *)
    destruct t as [|x t]; simpl in E2.
    + injection E2 as ->. rewrite app_nil_r in E1. subst a.
      rewrite <- app_assoc. apply found_in.
    + injection E2 as <- ->. subst a. rewrite <- !app_assoc. apply found_in.
Qed.

Lemma anchor_ends_with_tail k w :
  matches (pattern_of k) w -> exists w0, w = w0 ++ anchor_tail k.
Proof.
  intros H.
  assert (E : exists p, pattern_of k = p ++ [Lit (anchor_tail k)]).
  { destruct k.
    - exists []. reflexivity.
    - exists []. reflexivity.
    - exists [Lit (lit "/* Views */ = {"); PlusNot "}"%char]. reflexivity.
    - exists [Lit (lit "/* Sources */ = {"); PlusNot "}"%char;
              Lit (lit "isa = PBXSourcesBuildPhase;"); PlusNot "}"%char].
      reflexivity. }
  destruct E as (p & E). rewrite E in H. now apply matches_snoc_lit in H.
Qed.

Lemma firstn_exact (u v : text) n : length u = n -> firstn n (u ++ v) = u.
Proof.
  intros <-. rewrite firstn_app, firstn_all, Nat.sub_diag, firstn_O. apply app_nil_r.
Qed.

Lemma common_end_prefix (l1 l2 r1 r2 : text) :
  r1 ++ l1 = r2 ++ l2 ->
  starts_with (rev l1) (rev l2) = true \/ starts_with (rev l2) (rev l1) = true.
Proof.
  intros E. apply (f_equal (@rev ascii)) in E. rewrite !rev_app_distr in E.
  apply app_eq_app in E as [t [[E1 _]|[E1 _]]]; rewrite E1.
  - right. apply starts_with_app.
  - left. apply starts_with_app.
Qed.

(** Two different sub-steps never insert at the same offset: their anchors
    end differently. *)
Lemma anchor_ends_distinct a b x qa qb :
  a <> b -> anchor_end a x = Some qa -> anchor_end b x = Some qb -> qa <> qb.
Proof.
  unfold anchor_end. intros Hab Ha Hb Heq. subst qb.
  destruct (search (pattern_of a) x) as [ma|] eqn:Ea; [|discriminate].
  destruct (search (pattern_of b) x) as [mb|] eqn:Eb; [|discriminate].
  simpl in Ha, Hb. injection Ha as Ha. injection Hb as Hb.
  destruct (search_split _ _ Ea) as (pa & wa & ta & Exa & _ & Hla & Hma).
  destruct (search_split _ _ Eb) as (pb & wb & tb & Exb & _ & Hlb & Hmb).
  apply anchor_ends_with_tail in Hma as [ua ->].
  apply anchor_ends_with_tail in Hmb as [ub ->].
  assert (E : (pa ++ ua) ++ anchor_tail a = (pb ++ ub) ++ anchor_tail b).
  { assert (Fa : firstn qa x = pa ++ ua ++ anchor_tail a).
    { rewrite Exa, (app_assoc pa (ua ++ anchor_tail a) ta). apply firstn_exact. lia. }
    assert (Fb : firstn qa x = pb ++ ub ++ anchor_tail b).
    { rewrite Exb, (app_assoc pb (ub ++ anchor_tail b) tb). apply firstn_exact. lia. }
    rewrite <- !app_assoc. congruence. }
  apply common_end_prefix in E.
  destruct a, b; try contradiction; vm_compute in E; destruct E; discriminate.
Qed.

Lemma splice_splice x qa qb ea eb :
  qa <= qb -> qb <= length x ->
  splice (splice x qa ea) (qb + length ea) eb = splice (splice x qb eb) qa ea.
Proof.
  intros Hab Hb.
  rewrite <- (firstn_skipn qa x).
  set (u := firstn qa x). set (vw := skipn qa x).
  assert (Hu : length u = qa) by (unfold u; rewrite length_firstn; lia).
  rewrite <- (firstn_skipn (qb - qa) vw).
  set (v := firstn (qb - qa) vw). set (w := skipn (qb - qa) vw).
  assert (Hv : length v = qb - qa).
  { unfold v, vw. rewrite length_firstn, length_skipn. lia. }
  clearbody u v w. clear vw.
  replace qa with (length u) at 1 by assumption. rewrite splice_at.
  replace (qb + length ea) with (length (u ++ ea ++ v))
    by (rewrite !length_app; lia).
  replace (u ++ ea ++ v ++ w) with ((u ++ ea ++ v) ++ w)
    by (now rewrite <- !app_assoc).
  rewrite splice_at.
  replace qb with (length (u ++ v)) by (rewrite length_app; lia).
  rewrite (app_assoc u v w), splice_at.
  replace qa with (length u) by assumption.
  rewrite <- (app_assoc u v), splice_at.
  now rewrite <- !app_assoc.
Qed.

Lemma newlines_app s t : newlines (s ++ t) = newlines s + newlines t.
Proof. apply count_occ_app. Qed.

Lemma newlines_plain s : ~ In NL s -> newlines s = 0.
Proof. apply count_occ_not_In. Qed.

(** With no newline in the file name and in the identifiers, every entry is
    one line. *)
Lemma entry_of_one_line file_name file_ref_uuid build_file_uuid k :
  ~ In NL file_name -> ~ In NL file_ref_uuid -> ~ In NL build_file_uuid ->
  newlines (entry_of file_name file_ref_uuid build_file_uuid k) = 1.
Proof.
  intros Hn Ha Hb.
  destruct k; cbn [entry_of]; unfold build_file_entry, file_ref_entry, group_entry,
    sources_entry; rewrite !newlines_app, ?(@newlines_plain _ Hn),
    ?(@newlines_plain _ Ha), ?(@newlines_plain _ Hb); reflexivity.
Qed.

(** A block whose anchor cannot end inside [zone] leaves [zone] in one
    piece. *)
Lemma insert_after_keeps_zone zone tail p e x :
  (forall w, matches p w -> exists w0, w = w0 ++ tail) ->
  zone_safe zone tail = true ->
  (exists pre rest, x = pre ++ zone ++ rest) ->
  exists pre rest, insert_after p e x = pre ++ zone ++ rest.
Proof.
  intros Hp Hsafe (pre & rest & Hx).
  destruct (insert_after_cases p e x)
    as [[_ ->]|(m & a & w & b & _ & Ex & _ & _ & Hm & ->)]; [now exists pre, rest|].
  destruct (Hp _ Hm) as [w0 ->]. clear Hm.
  assert (E : (a ++ w0 ++ tail) ++ b = pre ++ zone ++ rest).
  { rewrite <- Hx, Ex. now rewrite <- !app_assoc. }
  replace (a ++ (w0 ++ tail) ++ e ++ b) with ((a ++ w0 ++ tail) ++ e ++ b)
    by (now rewrite <- !app_assoc).
  apply app_eq_app in E as [t [[E1 E2]|[E1 E2]]].
  - (* the line goes in at or after the start of the zone *)
    rewrite E1. apply app_eq_app in E2 as [t2 [[E3 E4]|[E3 E4]]].
    + destruct t as [|c0 t].
      * exists (pre ++ e), rest. simpl in E3. subst t2 b.
        now rewrite app_nil_r, <- !app_assoc.
      * destruct t2 as [|c2 t2].
        -- exists pre, (e ++ rest). rewrite app_nil_r in E3. simpl in E4. subst b.
           rewrite <- E3. now rewrite <- !app_assoc.
        -- (* strictly inside: impossible *)
           exfalso. set (t' := c0 :: t) in *.
           assert (Ht : t' = firstn (length t') zone)
             by (rewrite E3, firstn_app, firstn_all, Nat.sub_diag, firstn_O;
                 now rewrite app_nil_r).
           unfold zone_safe in Hsafe. rewrite forallb_forall in Hsafe.
           specialize (Hsafe (length t')). rewrite in_seq in Hsafe.
           assert (Hin : 1 <= length t' < 1 + (length zone - 1)).
           { rewrite E3, length_app. unfold t'. simpl. lia. }
           apply Hsafe in Hin. rewrite <- Ht in Hin.
           assert (Ec : (a ++ w0) ++ tail = pre ++ t') by (now rewrite <- app_assoc).
           apply common_end_prefix in Ec. rewrite negb_true_iff, orb_false_iff in Hin.
           destruct Hin, Ec; congruence.
    + (* at or after its end *)
      exists pre, (t2 ++ e ++ b). rewrite E3. now rewrite <- !app_assoc.
  - (* the line goes in before the zone *)
    exists ((a ++ w0 ++ tail) ++ e ++ t), rest. rewrite E2. now rewrite <- !app_assoc.
Qed.

Lemma brace_free_matches p w :
  brace_free p = true -> matches p w -> Forall (fun x => x <> "}"%char) w.
Proof.
  intros Hp H. induction H as [|l p w _ IH|c p u w _ Hu _ IH]; simpl in Hp.
  - constructor.
  - apply andb_prop in Hp as [Hl Hp]. apply Forall_app. split; [|auto].
    rewrite forallb_forall in Hl. apply Forall_forall. intros x Hx ->.
    apply Hl in Hx. discriminate Hx.
  - apply andb_prop in Hp as [Hc Hp]. apply Ascii.eqb_eq in Hc. subst c.
    apply Forall_app. split; auto.
Qed.

(** What all four anchor patterns share: a match holds no closing brace,
    starts with a slash and ends with a newline. *)
Lemma anchor_match_shape k w :
  matches (pattern_of k) w ->
  ~ In "}"%char w /\ (exists w', w = "/"%char :: w') /\ (exists w0, w = w0 ++ [NL]).
Proof.
  intros H. split; [|split].
  - assert (Hb : brace_free (pattern_of k) = true) by (now destruct k).
    pose proof (@brace_free_matches _ _ Hb H) as Hall.
    rewrite Forall_forall in Hall. intros Hin. now apply (Hall _ Hin).
  - destruct k; inversion H; subst; eexists; reflexivity.
  - apply anchor_ends_with_tail in H as [w0 ->].
    destruct k; eexists; unfold anchor_tail; rewrite app_assoc; reflexivity.
Qed.

Lemma suffix_last (x y t : text) c : x ++ [c] = y ++ t -> t <> [] -> In c t.
Proof.
  intros E Ht. destruct (exists_last Ht) as (t' & d & ->).
  rewrite app_assoc in E. apply app_inj_tail in E as [_ <-].
  apply in_or_app. right. now left.
Qed.

(** A line that ends with a closing brace, one more character other than a
    slash, and its only newline cannot take part in a match of such a
    pattern: a match in the text with the line comes from the text before
    the line or from the text after it. *)
Lemma braced_line_inert (u e0 v a w b : text) (c2 : ascii) :
  ~ In NL e0 -> c2 <> "/"%char ->
  ~ In "}"%char w ->
  (exists w', w = "/"%char :: w') -> (exists w0, w = w0 ++ [NL]) ->
  u ++ (e0 ++ ["}"%char; c2; NL]) ++ v = a ++ w ++ b ->
  (exists t, u = a ++ w ++ t) \/ (exists t, v = t ++ w ++ b).
Proof.
  intros He0 Hc2 Hnb [w' Hw'] [w0 Hw0] E.
  assert (E' : (u ++ e0) ++ "}"%char :: c2 :: NL :: v = a ++ w ++ b)
    by (rewrite <- E, <- !app_assoc; reflexivity).
  clear E. apply app_eq_app in E' as [t [[E1 E2]|[E1 E2]]].
  - (* the match starts before the brace *)
    left. apply app_eq_app in E2 as [t2 [[E3 E4]|[E3 E4]]].
    + (* and would reach the brace or end in the line *)
      destruct t2 as [|x t2].
      * rewrite app_nil_r in E3. subst t.
        apply app_eq_app in E1 as [t3 [[E5 E6]|[E5 E6]]].
        -- destruct e0 as [|y e0].
           ++ exists []. rewrite app_nil_r in E6. subst t3. now rewrite app_nil_r.
           ++ exfalso. apply He0. rewrite Hw0 in E6.
              apply (@suffix_last w0 t3 (y :: e0) NL E6). discriminate.
        -- exfalso. apply He0. rewrite E6. apply in_or_app. right.
           rewrite Hw0. apply in_or_app. right. now left.
      * exfalso. apply Hnb. injection E4 as <- _. rewrite E3.
        apply in_or_app. right. now left.
    + (* and ends before the brace *)
      subst t. rewrite app_assoc in E1.
      apply app_eq_app in E1 as [t3 [[E5 E6]|[E5 E6]]].
      * exists t3. now rewrite E5, <- app_assoc.
      * destruct t3 as [|y t3].
        -- exists []. rewrite app_nil_r in E5. rewrite app_nil_r. now symmetry.
        -- exfalso. apply He0. rewrite E6. apply in_or_app. left.
           rewrite Hw0, app_assoc in E5.
           apply (@suffix_last (a ++ w0) u (y :: t3) NL E5). discriminate.
  - (* the match starts at the brace or after it *)
    right. destruct t as [|x t]; simpl in E2.
    + exfalso. rewrite Hw' in E2. discriminate E2.
    + injection E2 as _ E2. destruct t as [|y t]; simpl in E2.
      * exfalso. rewrite Hw' in E2. injection E2 as E2 _. now apply Hc2.
      * injection E2 as _ E2. destruct t as [|z t]; simpl in E2.
        -- exfalso. rewrite Hw' in E2. discriminate E2.
        -- injection E2 as _ E2. now exists t.
Qed.



(** The build-file and the file-reference line are such lines. *)
Lemma braced_entry_shape file_name file_ref_uuid build_file_uuid j :
  j = BuildFile \/ j = FileRef ->
  ~ In NL file_name -> ~ In NL file_ref_uuid -> ~ In NL build_file_uuid ->
  exists e0,
    entry_of file_name file_ref_uuid build_file_uuid j = e0 ++ ["}"%char; ";"%char; NL] /\
    ~ In NL e0.
Proof.
  intros Hj Hn Ha Hb. destruct Hj as [-> | ->]; cbn [entry_of].
  - exists ([TAB; TAB] ++ build_file_uuid ++ lit " /* " ++ file_name ++
            lit " in Sources */ = {isa = PBXBuildFile; fileRef = " ++ file_ref_uuid ++
            lit " /* " ++ file_name ++ lit " */; "). split.
    + unfold build_file_entry. rewrite <- !app_assoc. reflexivity.
    + apply (count_occ_not_In ascii_dec). fold (newlines ([TAB; TAB] ++ build_file_uuid ++
        lit " /* " ++ file_name ++
        lit " in Sources */ = {isa = PBXBuildFile; fileRef = " ++ file_ref_uuid ++
        lit " /* " ++ file_name ++ lit " */; ")).
      rewrite !newlines_app, (@newlines_plain _ Hn), (@newlines_plain _ Ha),
        (@newlines_plain _ Hb). reflexivity.
  - exists ([TAB; TAB] ++ file_ref_uuid ++ lit " /* " ++ file_name ++
            lit " */ = {isa = PBXFileReference; lastKnownFileType = sourcecode.swift; path = " ++
            file_name ++ lit "; sourceTree = " ++ ["034"%char] ++ lit "<group>" ++
            ["034"%char] ++ lit "; "). split.
    + unfold file_ref_entry. rewrite <- !app_assoc. reflexivity.
    + apply (count_occ_not_In ascii_dec). fold (newlines ([TAB; TAB] ++ file_ref_uuid ++
        lit " /* " ++ file_name ++
        lit " */ = {isa = PBXFileReference; lastKnownFileType = sourcecode.swift; path = " ++
        file_name ++ lit "; sourceTree = " ++ ["034"%char] ++ lit "<group>" ++
        ["034"%char] ++ lit "; ")).
      rewrite !newlines_app, (@newlines_plain _ Hn), (@newlines_plain _ Ha). reflexivity.
Qed.

(** An insertion made right after a word ending in [tail] cannot cut a
    safe zone in two. *)
Lemma no_cut (zone tail t1 t2 u0 pre : text) :
  zone_safe zone tail = true -> zone = t1 ++ t2 -> t1 <> [] -> t2 <> [] ->
  u0 ++ tail = pre ++ t1 -> False.
Proof.
  intros Hsafe Hz H1 H2 E.
  assert (Ht : t1 = firstn (length t1) zone)
    by (rewrite Hz, firstn_app, firstn_all, Nat.sub_diag, firstn_O; now rewrite app_nil_r).
  unfold zone_safe in Hsafe. rewrite forallb_forall in Hsafe.
  specialize (Hsafe (length t1)). rewrite in_seq in Hsafe.
  assert (Hin : 1 <= length t1 < 1 + (length zone - 1)).
  { rewrite Hz, length_app. destruct t1, t2; simpl; try contradiction; lia. }
  apply Hsafe in Hin. rewrite <- Ht in Hin.
  apply common_end_prefix in E. rewrite negb_true_iff, orb_false_iff in Hin.
  destruct Hin, E; congruence.
Qed.

(** Each of the four patterns finds the longest match at the place where it
    matches. *)
Lemma anchor_longest k : longest (pattern_of k).
Proof.
  destruct k; cbn [pattern_of]; unfold build_file_section_re, file_ref_section_re,
    views_group_pattern, sources_pattern; apply longest_lit_cons.
  - apply longest_nil.
  - apply longest_nil.
  - apply longest_plus_lit.
  - apply longest_plus_lit_plus_lit. intros H. vm_compute in H.
    repeat (destruct H as [H|H]; [discriminate H|]). exact H.
Qed.

Lemma found_at_turn_run file_name file_ref_uuid build_file_uuid k :
  exists done, forall c,
    found_at_turn file_name file_ref_uuid build_file_uuid k c =
    found k (run_order file_name file_ref_uuid build_file_uuid done c).
Proof.
  destruct k.
  - exists []. reflexivity.
  - exists [BuildFile]. reflexivity.
  - exists [BuildFile; FileRef]. reflexivity.
  - exists [BuildFile; FileRef; ViewsGroup]. reflexivity.
Qed.

Lemma sub_step_unfold file_name file_ref_uuid build_file_uuid k c :
  sub_step file_name file_ref_uuid build_file_uuid k c =
  match search (pattern_of k) c with
  | Some m => splice c (m_end m) (entry_of file_name file_ref_uuid build_file_uuid k)
  | None => c
  end.
Proof. reflexivity. Qed.

Section PatchFacts.

Variables file_name file_ref_uuid build_file_uuid : text.

Local Abbreviation sub_step := (sub_step file_name file_ref_uuid build_file_uuid).
Local Abbreviation run_order := (run_order file_name file_ref_uuid build_file_uuid).
Local Abbreviation entry_of := (entry_of file_name file_ref_uuid build_file_uuid).
Local Abbreviation insertions := (insertions file_name file_ref_uuid build_file_uuid).
Local Abbreviation hits := (hits file_name file_ref_uuid build_file_uuid).
Local Abbreviation total_length := (total_length file_name file_ref_uuid build_file_uuid).
Local Abbreviation before := (before file_name file_ref_uuid build_file_uuid).
Local Abbreviation found_at_turn := (found_at_turn file_name file_ref_uuid build_file_uuid).

Lemma found_true k c : found k c = true <-> search (pattern_of k) c <> None.
Proof. unfold found. destruct (search (pattern_of k) c); split; congruence. Qed.

Lemma found_false k c : found k c = false <-> search (pattern_of k) c = None.
Proof. unfold found. destruct (search (pattern_of k) c); split; congruence. Qed.

Lemma sub_step_skip k c : found k c = false -> sub_step k c = c.
Proof.
  intros H. apply found_false in H. unfold sub_step, insert_after. now rewrite H.
Qed.

Lemma sub_step_hit k c :
  found k c = true -> inserted_after (pattern_of k) (entry_of k) c (sub_step k c).
Proof.
  intros H. apply found_true in H. unfold sub_step.
  destruct (insert_after_cases (pattern_of k) (entry_of k) c)
    as [[E _]|(m & pre & w & post & _ & Hc & _ & _ & Hm & Hr)]; [contradiction|].
  exists pre, w, post. auto.
Qed.

Lemma sub_step_length k c :
  length (sub_step k c) =
  length c + (if found k c then length (entry_of k) else 0).
Proof.
  unfold sub_step, insert_after, found.
  destruct (search (pattern_of k) c); [apply splice_length|lia].
Qed.

Lemma run_order_app l1 l2 c : run_order (l1 ++ l2) c = run_order l2 (run_order l1 c).
Proof. unfold run_order. apply fold_left_app. Qed.

Lemma run_order_length order : forall c, length c <= length (run_order order c).
Proof.
  induction order as [|k order IH]; intros c; simpl; [lia|].
  etransitivity; [|apply IH]. rewrite sub_step_length. lia.
Qed.

(** Whatever the order, the result is the input with the lines of the
    sub-steps that found their anchor put in. *)
Lemma run_order_insertions order : forall c,
  insertions (hits order c) c (run_order order c).
Proof.
  induction order as [|k order IH]; intros c; simpl; [constructor|].
  destruct (found k c) eqn:E.
  - econstructor; [now apply sub_step_hit|apply IH].
  - specialize (IH (sub_step k c)). change (run_order (k :: order) c)
      with (run_order order (sub_step k c)).
    now rewrite (sub_step_skip _ _ E) in IH |- *.
Qed.

Lemma inserted_after_length p line old new :
  inserted_after p line old new -> length new = length old + length line.
Proof.
  intros (pre & w & post & -> & -> & _). rewrite !length_app. lia.
Qed.

Lemma insertions_length ks c c' :
  insertions ks c c' -> length c' = length c + total_length ks.
Proof.
  unfold total_length.
  induction 1 as [|k ks c c1 c' H1 _ IH]; simpl; [lia|].
  apply inserted_after_length in H1. lia.
Qed.

Lemma insertions_app ks1 ks2 c c1 c2 :
  insertions ks1 c c1 -> insertions ks2 c1 c2 -> insertions (ks1 ++ ks2) c c2.
Proof.
  induction 1; simpl; intros H2; [assumption|]. econstructor; eauto.
Qed.

(** In the script's order, the sub-steps that hit are those that find their
    anchor when their turn comes. *)
Lemma hits_implemented c :
  hits implemented_order c = filter (fun k => found_at_turn k c) implemented_order.
Proof.
  unfold found_at_turn, implemented_order. simpl.
  repeat match goal with
  | |- context [if ?b then _ else _] => destruct b
  end; reflexivity.
Qed.

Lemma patch_run_order c file_path :
  patch c file_name file_path file_ref_uuid build_file_uuid =
  run_order implemented_order c.
Proof. reflexivity. Qed.

Lemma all_found_at_turn_hits c :
  all_found_at_turn file_name file_ref_uuid build_file_uuid c = true -> hits implemented_order c = implemented_order.
Proof.
  unfold all_found_at_turn. intros H. rewrite hits_implemented.
  simpl in H. repeat (apply andb_prop in H as [?H H]).
  simpl. now rewrite H0, H1, H2, H3.
Qed.

Lemma only_missing_hits k c :
  only_missing file_name file_ref_uuid build_file_uuid k c = true ->
  found_at_turn k c = false /\
  hits implemented_order c = remove section_id_eq_dec k implemented_order.
Proof.
  unfold only_missing. intros H. rewrite hits_implemented.
  simpl in H. repeat (apply andb_prop in H as [?H H]).
  destruct k; simpl in *;
    repeat match goal with
    | H : Bool.eqb _ _ = true |- _ => apply Bool.eqb_prop in H; rewrite H
    end; auto.
Qed.

Lemma entry_of_tab k : exists e, entry_of k = TAB :: e.
Proof. destruct k; eexists; reflexivity. Qed.

Lemma entry_of_length k : 0 < length (entry_of k).
Proof. destruct (entry_of_tab k) as [e ->]. simpl. lia. Qed.

(** The two section markers survive every sub-step. *)
Lemma marker_survives k j c :
  k = BuildFile \/ k = FileRef -> found k c = true -> found k (sub_step j c) = true.
Proof.
  intros Hk. rewrite !found_true.
  change (sub_step j c) with (insert_after (pattern_of j) (entry_of j) c).
  assert (E : exists l0, pattern_of k = [Lit (l0 ++ [NL])] /\ ~ In NL l0).
  { destruct Hk as [-> | ->]; eexists; (split; [reflexivity|]);
      intros H; vm_compute in H;
      repeat (destruct H as [H|H]; [discriminate H|]); exact H. }
  destruct E as (l0 & -> & Hl0).
  apply literal_survives; [assumption|].
  intros w Hw. apply anchor_ends_with_tail in Hw as [w0 ->].
  destruct j; eexists; unfold anchor_tail; rewrite app_assoc; reflexivity.
Qed.

Lemma marker_survives_run k order : forall c,
  k = BuildFile \/ k = FileRef -> found k c = true ->
  found k (run_order order c) = true.
Proof.
  induction order as [|j order IH]; intros c Hk H; simpl; [assumption|].
  apply IH; [assumption|]. now apply marker_survives.
Qed.

Lemma sub_step_anchor k x :
  sub_step k x =
  match anchor_end k x with
  | Some q => splice x q (entry_of k)
  | None => x
  end.
Proof.
  rewrite sub_step_unfold. unfold anchor_end.
  now destruct (search (pattern_of k) x).
Qed.

Lemma anchor_end_bound k x q : anchor_end k x = Some q -> q <= length x.
Proof.
  unfold anchor_end. destruct (search (pattern_of k) x) as [m|] eqn:E; [|discriminate].
  intros [= <-]. now apply search_some in E.
Qed.

(** Two sub-steps whose insertions leave each other's anchor in place
    commute. *)
Lemma pair_commute a b x :
  a <> b ->
  anchor_end b (sub_step a x) =
    moved (anchor_end a x) (length (entry_of a)) (anchor_end b x) ->
  anchor_end a (sub_step b x) =
    moved (anchor_end b x) (length (entry_of b)) (anchor_end a x) ->
  sub_step b (sub_step a x) = sub_step a (sub_step b x).
Proof.
  intros Hab Hb Ha.
  rewrite (sub_step_anchor b (sub_step a x)), (sub_step_anchor a (sub_step b x)), Hb, Ha.
  rewrite (sub_step_anchor a x), (sub_step_anchor b x).
  destruct (anchor_end a x) as [qa|] eqn:Ea, (anchor_end b x) as [qb|] eqn:Eb;
    simpl; try reflexivity.
  pose proof (@anchor_ends_distinct a b x qa qb Hab Ea Eb) as Hne.
  pose proof (@anchor_end_bound a x qa Ea) as Bqa.
  pose proof (@anchor_end_bound b x qb Eb) as Bqb.
  destruct (Nat.ltb_spec qa qb), (Nat.ltb_spec qb qa); try lia.
  - apply splice_splice; lia.
  - symmetry. apply splice_splice; lia.
Qed.

(** With stable anchors, sub-steps that have not run yet can run in any
    order. *)
Lemma stable_run_order c :
  stable_anchors file_name file_ref_uuid build_file_uuid c ->
  forall l l', Permutation l l' ->
  forall done, NoDup (done ++ l) ->
    run_order l (run_order done c) = run_order l' (run_order done c).
Proof.
  intros Hst l l' Hperm.
  induction Hperm as [|k l l' _ IH|a b l|l l1 l2 H1 IH1 H2 IH2]; intros done Hnd.
  - reflexivity.
  - change (run_order (k :: l) (run_order done c))
      with (run_order l (sub_step k (run_order done c))).
    change (run_order (k :: l') (run_order done c))
      with (run_order l' (sub_step k (run_order done c))).
    replace (sub_step k (run_order done c)) with (run_order (done ++ [k]) c)
      by (now rewrite run_order_app).
    apply IH. now rewrite <- app_assoc.
  - change (run_order (b :: a :: l) (run_order done c))
      with (run_order l (sub_step a (sub_step b (run_order done c)))).
    change (run_order (a :: b :: l) (run_order done c))
      with (run_order l (sub_step b (sub_step a (run_order done c)))).
    f_equal.
    assert (Hnd' : NoDup (b :: a :: done)).
    { assert (Hp : Permutation (done ++ b :: a :: l) ((b :: a :: done) ++ l)).
      { change (b :: a :: l) with ([b; a] ++ l). rewrite app_assoc.
        apply Permutation_app_tail.
        apply (Permutation_app_comm done [b; a]). }
      apply (Permutation_NoDup Hp) in Hnd. now apply NoDup_app_remove_r in Hnd. }
    assert (Hnd2 : NoDup (a :: b :: done)).
    { revert Hnd'. apply Permutation_NoDup. apply perm_swap. }
    assert (Hab : b <> a).
    { inversion Hnd' as [|? ? Hin _]; subst. intros ->. apply Hin. now left. }
    symmetry. apply pair_commute; auto.
  - rewrite IH1 by assumption. apply IH2.
    revert Hnd. apply Permutation_NoDup. now apply Permutation_app_head.
Qed.

Lemma insertions_newlines ks c c' :
  ~ In NL file_name -> ~ In NL file_ref_uuid -> ~ In NL build_file_uuid ->
  insertions ks c c' -> newlines c' = newlines c + length ks.
Proof.
  intros Hn Ha Hb.
  induction 1 as [|k ks c c1 c' (pre & w & post & -> & -> & _) _ IH]; simpl; [lia|].
  rewrite IH, !newlines_app, (@entry_of_one_line _ _ _ k Hn Ha Hb). lia.
Qed.

(** An anchor that no other anchor reaches into is found again after any
    sequence of sub-steps, run any number of times. *)
Lemma zone_run zone order : forall x,
  (forall j, zone_safe zone (anchor_tail j) = true) ->
  (exists pre rest, x = pre ++ zone ++ rest) ->
  exists pre rest, run_order order x = pre ++ zone ++ rest.
Proof.
  induction order as [|j order IH]; intros x Hsafe Hx; [exact Hx|].
  change (run_order (j :: order) x) with (run_order order (sub_step j x)).
  apply IH; [assumption|].
  change (sub_step j x) with (insert_after (pattern_of j) (entry_of j) x).
  apply insert_after_keeps_zone with (tail := anchor_tail j); auto.
  apply anchor_ends_with_tail.
Qed.

Lemma anchor_clear_found k c order :
  anchor_clear k c = true -> found k (run_order order c) = true.
Proof.
  unfold anchor_clear, matched_text. intros H.
  destruct (search (pattern_of k) c) as [m|] eqn:E; [|discriminate].
  destruct (search_some _ _ E) as (H1 & H2 & H3 & _).
  rewrite forallb_forall in H.
  set (w := firstn (m_end m - m_start m) (skipn (m_start m) c)) in *.
  destruct (@zone_run w order c) as (pre & rest & Hr).
  - intros j. apply H. destruct j; simpl; tauto.
  - exists (firstn (m_start m) c), (skipn (m_end m - m_start m) (skipn (m_start m) c)).
    unfold w. now rewrite !firstn_skipn.
  - apply found_true. rewrite Hr. now apply search_found.
Qed.

(** On a separated manifest every sub-step of the script finds its anchor,
    in a first run and in every further run. *)
Lemma separated_all_found_at_turn c order :
  separated c = true ->
  all_found_at_turn file_name file_ref_uuid build_file_uuid (run_order order c) = true.
Proof.
  unfold separated, all_found_at_turn. rewrite !forallb_forall.
  intros H k Hk.
  destruct (found_at_turn_run file_name file_ref_uuid build_file_uuid k) as [done ->].
  rewrite <- run_order_app. apply anchor_clear_found. now apply H.
Qed.

Lemma separated_but_only_missing k c :
  found_at_turn k c = false -> separated_but k c = true ->
  only_missing file_name file_ref_uuid build_file_uuid k c = true.
Proof.
  unfold separated_but, only_missing. rewrite !forallb_forall.
  intros Hk H j Hj. specialize (H j Hj).
  destruct (section_id_eq_dec j k) as [->|_].
  - now rewrite Hk.
  - destruct (found_at_turn_run file_name file_ref_uuid build_file_uuid j) as [done ->].
    now rewrite (anchor_clear_found j c done H).
Qed.

(** So on a separated manifest a run inserts the four lines, and a second
    run inserts them again. *)
Corollary separated_four_lines c :
  separated c = true -> insertions implemented_order c (run_order implemented_order c).
Proof.
  intros H. pose proof (separated_all_found_at_turn c [] H) as H1.
  apply all_found_at_turn_hits in H1. rewrite <- H1 at 1. apply run_order_insertions.
Qed.

Corollary separated_eight_lines c :
  separated c = true ->
  insertions (implemented_order ++ implemented_order) c
    (run_order implemented_order (run_order implemented_order c)).
Proof.
  intros H. apply insertions_app with (c1 := run_order implemented_order c).
  - now apply separated_four_lines.
  - pose proof (separated_all_found_at_turn c implemented_order H) as H2.
    apply all_found_at_turn_hits in H2. rewrite <- H2 at 1. apply run_order_insertions.
Qed.

End PatchFacts.

(** * Lines that take no part in a match *)

(** With no newline, opening brace or semicolon in the file name and the
    identifiers, none of the four lines can be part of a match of an anchor
    pattern other than inside a repetition; so a line that goes in outside
    the text an anchor matches leaves that anchor where it is. *)

Lemma plain_spec s :
  plain s = true -> ~ In NL s /\ ~ In "{"%char s /\ ~ In ";"%char s.
Proof.
  unfold plain. rewrite forallb_forall. intros H.
  repeat split; intros Hin; apply H in Hin; vm_compute in Hin; discriminate Hin.
Qed.

Lemma last_of_suffix (a t : text) :
  (forall a0 ch, a = a0 ++ [ch] -> ch = NL) ->
  forall l a0 ch, a = l ++ t -> t = a0 ++ [ch] -> ch = NL.
Proof.
  intros H l a0 ch E1 E2. apply (H (l ++ a0) ch). rewrite E1, E2. now rewrite app_assoc.
Qed.

(** A match that holds the line [e], right after a newline, holds it inside
    a repetition: without the line it is still a match. *)
Lemma remove_block e p w :
  matches p w ->
  (exists e', e = TAB :: e') ->
  inert_for e p ->
  forall al be, w = al ++ e ++ be ->
    (forall a0 ch, al = a0 ++ [ch] -> ch = NL) ->
    (al = [] -> ~ starts_plus p) ->
    matches p (al ++ be).
Proof.
  intros Hm [e' He]. induction Hm as [|l p w Hm IH|c p u w Hu Hall Hm IH];
    intros Hin al be E Hal Hst.
  - exfalso. subst e. destruct al; discriminate E.
  - destruct Hin as (Hl & Htab & Hns & Hnl & Hin).
    assert (Hcase : exists t, al = l ++ t /\ w = t ++ e ++ be).
    { apply app_eq_app in E as [t [[E1 E2]|[E1 E2]]].
      - destruct t as [|x t].
        + exists []. rewrite app_nil_r in E1. simpl in E2. split; [now rewrite app_nil_r|].
          now symmetry.
        + exfalso. apply Htab. rewrite E1. rewrite He in E2. simpl in E2.
          injection E2 as <- _. apply in_or_app. right. now left.
      - exists t. auto. }
    destruct Hcase as (t & -> & ->).
    rewrite <- app_assoc. constructor. apply IH; auto.
    + intros a0 ch Et. apply (@last_of_suffix (l ++ t) t Hal l a0 ch eq_refl Et).
    + intros -> Hp. rewrite app_nil_r in Hal. apply Hnl; [|assumption].
      destruct (exists_last Hl) as (l0 & ch & ->). exists l0.
      now rewrite (Hal l0 ch eq_refl).
  - destruct Hin as (Hnp & Hin).
    assert (Hne : al <> []) by (intros ->; now apply Hst).
    apply app_eq_app in E as [t [[E1 E2]|[E1 E2]]].
    + rewrite E1 in Hall. apply Forall_app in Hall as [Hall1 Hall2].
      apply app_eq_app in E2 as [t2 [[E3 E4]|[E3 E4]]].
      * destruct t2 as [|x t2].
        -- simpl in E4. subst w. constructor; auto.
        -- exfalso. destruct p as [|[l'|c'] p''].
           ++ rewrite E4 in Hm. inversion Hm.
           ++ destruct Hin as (_ & _ & Hns & _).
              rewrite E4 in Hm. inversion Hm as [|? ? w1 Hw1 E0 E5|].
              apply (Hns t (x :: t2) w1 be E3); [discriminate|assumption].
           ++ now apply Hnp.
      * rewrite E3 in Hall2. apply Forall_app in Hall2 as [_ Hall3].
        rewrite E4, app_assoc. constructor; auto.
        -- destruct al; [contradiction|discriminate].
        -- apply Forall_app. split; assumption.
    + subst al w. rewrite <- app_assoc. constructor; auto. apply IH; auto.
      * intros a0 ch Et. apply (@last_of_suffix (u ++ t) t Hal u a0 ch eq_refl Et).
Qed.

Lemma suffix_ends (e0 t t2 : text) c :
  e0 ++ [c] = t ++ t2 -> t2 <> [] -> exists t2', t2 = t2' ++ [c].
Proof.
  intros E H. destruct (exists_last H) as (t2' & d & ->).
  rewrite app_assoc in E. apply app_inj_tail in E as [_ <-]. now exists t2'.
Qed.

(** A literal with no newline and with a character the line [e] lacks
    cannot start inside [e]. *)
Lemma no_start_char l e ch e0 :
  In ch l -> ~ In ch e -> ~ In NL l -> e = e0 ++ [NL] -> no_start_in l e.
Proof.
  intros Hch Hne Hnl He t t2 r1 r2 E Ht2 El.
  apply app_eq_app in El as [t3 [[E1 E2]|[E1 E2]]].
  - apply Hnl. rewrite E1. apply in_or_app. left.
    rewrite He in E. destruct (@suffix_ends _ _ _ _ E Ht2) as [t2' ->].
    apply in_or_app; right; now left.
  - apply Hne. rewrite E, E1. apply in_or_app. right. apply in_or_app. now left.
Qed.

(** Nor can a literal whose only newline is its last character, after a
    character other than a comma, start inside a line that ends with a
    comma and its only newline. *)
Lemma no_start_tail l0 c e1 :
  ~ In NL (l0 ++ [c]) -> c <> ","%char -> ~ In NL e1 ->
  no_start_in (l0 ++ [c; NL]) (e1 ++ [","%char; NL]).
Proof.
  intros Hl Hc He t t2 r1 r2 E Ht2 El.
  assert (E' : (e1 ++ [","%char]) ++ [NL] = t ++ t2)
    by (rewrite <- E, <- app_assoc; reflexivity).
  destruct (@suffix_ends _ _ _ _ E' Ht2) as [t2' Et2]. subst t2.
  rewrite app_assoc in E'. apply app_inj_tail in E' as [E' _].
  assert (Hl' : l0 ++ [c; NL] = (l0 ++ [c]) ++ [NL]) by (now rewrite <- app_assoc).
  rewrite Hl' in El.
  assert (Hcomma : t2' <> l0 ++ [c]).
  { intros ->. rewrite app_assoc in E'. apply app_inj_tail in E' as [_ E']. now apply Hc. }
  assert (He' : ~ In NL (e1 ++ [","%char])).
  { intros H. apply in_app_or in H as [H|[H|[]]]; [now apply He|discriminate H]. }
  apply app_eq_app in El as [t3 [[E1 E2]|[E1 E2]]].
  - destruct t3 as [|z t3].
    + rewrite app_nil_r in E1. apply app_inj_tail in E1 as [E1 _]. now apply Hcomma.
    + assert (Hz : z :: t3 <> []) by discriminate.
      destruct (@suffix_ends _ _ _ _ E1 Hz) as [t3' Et3]. rewrite Et3 in E1.
      rewrite app_assoc in E1. apply app_inj_tail in E1 as [E1 _].
      apply Hl. rewrite E1. apply in_or_app. left. apply in_or_app. right. now left.
  - destruct t3 as [|z t3].
    + rewrite app_nil_r in E1. apply app_inj_tail in E1 as [E1 _]. now apply Hcomma.
    + assert (Hz : z :: t3 <> []) by discriminate.
      destruct (@suffix_ends _ _ _ _ E1 Hz) as [t3' Et3]. rewrite Et3 in E1.
      rewrite app_assoc in E1. apply app_inj_tail in E1 as [E1 _].
      apply He'. rewrite E', E1. apply in_or_app. right. apply in_or_app. left.
      apply in_or_app. right. now left.
Qed.

(** file_ref_uuid line that starts with a tab and ends with a comma and its only
    newline: a match in the text with the line comes from the text before
    the line, from the text after it, or from a match around the place the
    line went in. *)
Lemma plain_line_inert (u e post a w b : text) p l p' e1 :
  p = Lit l :: p' -> inert_for e p -> matches p w ->
  (exists e', e = TAB :: e') -> e = e1 ++ [","%char; NL] -> ~ In NL e1 ->
  (exists y c, w = y ++ [c; NL] /\ c <> ","%char) ->
  (exists u0, u = u0 ++ [NL]) ->
  u ++ e ++ post = a ++ w ++ b ->
  (exists t, u = a ++ w ++ t) \/ (exists t, post = t ++ w ++ b) \/
  (exists w1 w2, w = w1 ++ e ++ w2 /\ u = a ++ w1 /\ post = w2 ++ b /\
                 w1 <> [] /\ w2 <> [] /\ matches p (w1 ++ w2)).
Proof.
  intros Hp Hin Hm Htab He He1 (y & c & Hy & Hc) [u0 Hu] E.
  assert (Hl : exists w', w = l ++ w') by (subst p; inversion Hm; subst; eauto).
  destruct Hl as [w' Hw'].
  assert (Hns : no_start_in l e) by (subst p; apply Hin).
  assert (Hnend : forall x, w <> x ++ e).
  { intros x Ex. rewrite Hy, He in Ex.
    replace (y ++ [c; NL]) with ((y ++ [c]) ++ [NL]) in Ex by (now rewrite <- app_assoc).
    replace (x ++ e1 ++ [","%char; NL]) with ((x ++ e1 ++ [","%char]) ++ [NL]) in Ex
      by (now rewrite <- !app_assoc).
    apply app_inj_tail in Ex as [Ex _]. rewrite !app_assoc in Ex.
    apply app_inj_tail in Ex as [_ Ex]. now apply Hc. }
  assert (Hwnl : w = (y ++ [c]) ++ [NL]) by (rewrite Hy, <- app_assoc; reflexivity).
  assert (He' : ~ In NL (e1 ++ [","%char])).
  { intros H. apply in_app_or in H as [H|[H|[]]]; [now apply He1|discriminate H]. }
  apply app_eq_app in E as [t [[E1 E2]|[E1 E2]]].
  - apply app_eq_app in E2 as [t2 [[E3 E4]|[E3 E4]]].
    + destruct t2 as [|x2 t2].
      { left. exists []. rewrite app_nil_r in *. now subst t. }
      apply app_eq_app in E4 as [t3 [[E5 E6]|[E5 E6]]].
      * exfalso. destruct t3 as [|x3 t3].
        -- rewrite app_nil_r in E5. apply (Hnend t). now rewrite E3, E5.
        -- assert (Hx2 : x2 :: t2 <> []) by discriminate.
           rewrite E3 in Hwnl. symmetry in Hwnl.
           destruct (@suffix_ends _ _ _ _ Hwnl Hx2) as [t2' Et2].
           assert (Hx3 : x3 :: t3 <> []) by discriminate.
           assert (E7 : (e1 ++ [","%char]) ++ [NL] = (x2 :: t2) ++ (x3 :: t3))
             by (rewrite <- E5, He, <- app_assoc; reflexivity).
           destruct (@suffix_ends _ _ _ _ E7 Hx3) as [t3' Et3].
           rewrite Et3, app_assoc in E7. apply app_inj_tail in E7 as [E7 _].
           apply He'. rewrite E7, Et2. apply in_or_app. left. apply in_or_app. right. now left.
      * destruct t3 as [|x3 t3].
        { exfalso. rewrite app_nil_r in E5. apply (Hnend t). now rewrite E3, E5. }
        destruct t as [|x1 t].
        { exfalso. simpl in E3. rewrite Hw', E5 in E3.
          destruct Htab as [e' He0].
          apply (Hns [] e w' (x3 :: t3) eq_refl); [rewrite He0; discriminate|].
          exact E3. }
        right. right. exists (x1 :: t), (x3 :: t3).
        repeat split; try assumption; try discriminate.
        -- now rewrite E3, E5.
        -- apply (@remove_block e p w Hm Htab Hin).
           ++ now rewrite E3, E5.
           ++ intros a0 ch Et. rewrite Et, Hu, app_assoc in E1.
              apply app_inj_tail in E1 as [_ E1]. now symmetry.
           ++ discriminate.
    + left. exists t2. now rewrite E1, E3.
  - right. left. apply app_eq_app in E2 as [t2 [[E3 E4]|[E3 E4]]].
    + destruct t2 as [|x2 t2].
      * exists []. simpl in E4. now symmetry.
      * exfalso. rewrite Hw', <- app_assoc in E4.
        apply (Hns t (x2 :: t2) (w' ++ b) post E3); [discriminate|assumption].
    + exists t2. assumption.
Qed.

Lemma skipn_past (u e post : text) n :
  length u <= n -> skipn (n + length e) (u ++ e ++ post) = skipn n (u ++ post).
Proof.
  intros H. rewrite !skipn_app.
  rewrite (skipn_all2 u) by lia. rewrite (skipn_all2 e) by lia.
  rewrite (skipn_all2 u) by lia. simpl. f_equal. lia.
Qed.

(** Putting a line [e] into a text, at a place that does not cut the match
    of [p], leaves that match where it was, moved right when the line went
    in before it. *)
Lemma block_stable p u e post :
  longest p ->
  (forall w, matches p w -> w <> []) ->
  e <> [] ->
  (forall a w b, u ++ e ++ post = a ++ w ++ b -> matches p w ->
     (exists t, u = a ++ w ++ t) \/ (exists t, post = t ++ w ++ b) \/
     (exists w1 w2, w = w1 ++ e ++ w2 /\ u = a ++ w1 /\ post = w2 ++ b /\
                    w1 <> [] /\ w2 <> [] /\ matches p (w1 ++ w2))) ->
  match search p (u ++ post) with
  | None => search p (u ++ e ++ post) = None
  | Some m =>
      m_end m <= length u \/ length u <= m_start m ->
      search p (u ++ e ++ post) =
      Some (if length u <? m_end m
            then {| m_start := m_start m + length e; m_end := m_end m + length e |}
            else m)
  end.
Proof.
  intros Hlong Hne He Hinert.
  assert (Hlen : 0 < length e) by (destruct e; [contradiction|simpl; lia]).
  assert (Hmap : forall j, matches_at p (u ++ e ++ post) j ->
            (j < length u /\ matches_at p (u ++ post) j) \/
            (exists j0, j = j0 + length e /\ length u <= j0 /\
                        matches_at p (u ++ post) j0)).
  { intros j Hj. apply matches_at_split in Hj as (a & w & b & Eq & Hja & Hm).
    pose proof (Hne _ Hm) as Hw.
    destruct (Hinert a w b Eq Hm) as [[t Et]|[[t Et]|(w1 & w2 & Ew & Eu & Ep & H1 & H2 & Hm')]].
    - left. split.
      + rewrite Et, !length_app. destruct w; [contradiction|simpl; lia].
      + apply matches_at_split. exists a, w, (t ++ post). repeat split; auto.
        rewrite Et. now rewrite <- !app_assoc.
    - right. exists (length u + length t).
      assert (Ea : a = u ++ e ++ t).
      { assert (Eq2 : (u ++ e ++ t) ++ (w ++ b) = a ++ (w ++ b))
          by (rewrite <- Eq, Et; repeat rewrite <- app_assoc; reflexivity).
        apply app_inv_tail in Eq2. now symmetry. }
      repeat split.
      + rewrite <- Hja, Ea, !length_app. lia.
      + lia.
      + apply matches_at_split. exists (u ++ t), w, b. repeat split; auto.
        * rewrite Et. now rewrite <- !app_assoc.
        * now rewrite length_app.
    - left. split.
      + rewrite Eu, length_app. destruct w1; [contradiction|simpl; lia].
      + apply matches_at_split. exists a, (w1 ++ w2), b. repeat split; auto.
        rewrite Eu, Ep. now rewrite <- !app_assoc. }
  destruct (search p (u ++ post)) as [m|] eqn:Es.
  2:{ apply search_none. intros j Hj. rewrite search_none in Es.
      apply Hmap in Hj as [[_ Hj]|(j0 & _ & _ & Hj)]; now apply Es in Hj. }
  intros Hpos.
  destruct (search_some _ _ Es) as (H1 & H2 & H3 & H4 & Hleft).
  destruct (search_split _ _ Es) as (P & Z & R & Ex & HP & HPZ & HZ).
  destruct m as [i0 e0]. simpl in *.
  destruct (Nat.ltb_spec (length u) e0) as [Hlt|Hge].
  - (* the line went in before the match *)
    assert (Hu : length u <= i0) by lia.
    replace (e0 + length e) with (i0 + length e + (e0 - i0)) by lia.
    apply search_first.
    + now rewrite skipn_past.
    + rewrite !length_app in *. lia.
    + intros j Hj Hat. apply Hmap in Hat as [[Hj' Hat]|(j0 & -> & _ & Hat)].
      * apply (Hleft j); [lia|assumption].
      * apply (Hleft j0); [lia|assumption].
  - (* the line went in after the match *)
    assert (ET : exists T, u = P ++ Z ++ T).
    { assert (Eq : (P ++ Z) ++ R = u ++ post) by (rewrite Ex; now rewrite <- app_assoc).
      apply app_eq_app in Eq as [t [[E1 E2]|[E1 E2]]].
      - assert (t = []) by (apply length_zero_iff_nil; rewrite E1, length_app in HPZ; lia).
        subst t. exists []. rewrite app_nil_r in *. now symmetry.
      - exists t. now rewrite E1, <- app_assoc. }
    destruct ET as [T ET].
    assert (HlZ : length Z = e0 - i0) by (rewrite length_app in HPZ; lia).
    assert (Ex' : u ++ e ++ post = P ++ Z ++ T ++ e ++ post)
      by (rewrite ET; now rewrite <- !app_assoc).
    assert (Esk : skipn i0 (u ++ e ++ post) = Z ++ T ++ e ++ post).
    { rewrite Ex', <- HP, skipn_app, skipn_all, Nat.sub_diag. reflexivity. }
    assert (Esk0 : skipn i0 (u ++ post) = Z ++ T ++ post).
    { rewrite ET, <- HP, <- !app_assoc, skipn_app, skipn_all, Nat.sub_diag. reflexivity. }
    destruct (match_here p (skipn i0 (u ++ e ++ post))) as [n'|] eqn:En'.
    2:{ exfalso. rewrite Esk in En'. now apply (match_here_complete HZ) in En'. }
    assert (Hn1 : length Z <= n')
      by (apply (Hlong _ _ Z (T ++ e ++ post) En' Esk HZ)).
    destruct (match_here_sound _ _ En') as [Hn2 HW].
    set (W := firstn n' (skipn i0 (u ++ e ++ post))) in *.
    assert (HlW : length W = n') by (unfold W; rewrite length_firstn; lia).
    assert (EW : u ++ e ++ post = P ++ W ++ skipn n' (skipn i0 (u ++ e ++ post))).
    { unfold W. rewrite firstn_skipn. rewrite <- (firstn_skipn i0 (u ++ e ++ post)) at 1.
      f_equal. rewrite Ex', <- HP, firstn_app, firstn_all, Nat.sub_diag, firstn_O.
      now rewrite app_nil_r. }
    set (rest := skipn n' (skipn i0 (u ++ e ++ post))) in *. clearbody W rest.
    assert (Hn' : n' = e0 - i0).
    { destruct (Hinert _ _ _ EW HW)
        as [[t Et]|[[t Et]|(w1 & w2 & Ew & Eu & Ep & Hw1 & Hw2 & Hm')]].
      - assert (length W <= e0 - i0); [|lia].
        apply (Hlong _ _ W (t ++ post) H4); [|assumption].
        rewrite Et, <- HP, <- !app_assoc, skipn_app, skipn_all, Nat.sub_diag. reflexivity.
      - exfalso.
        assert (Ea : P = u ++ e ++ t).
        { assert (Eq2 : (u ++ e ++ t) ++ (W ++ rest) = P ++ (W ++ rest))
            by (rewrite <- EW, Et; repeat rewrite <- app_assoc; reflexivity).
          apply app_inv_tail in Eq2. now symmetry. }
        rewrite Ea, !length_app in HP. lia.
      - exfalso.
        assert (length (w1 ++ w2) <= e0 - i0).
        { apply (Hlong _ _ (w1 ++ w2) rest H4); [|assumption].
          rewrite Eu, Ep, <- HP, <- !app_assoc, skipn_app, skipn_all, Nat.sub_diag.
          reflexivity. }
        rewrite length_app in H. rewrite Eu, length_app in Hge.
        destruct w2; [contradiction|simpl in H; lia]. }
    replace e0 with (i0 + n') by lia.
    apply search_first.
    + assumption.
    + rewrite !length_app in *. lia.
    + intros j Hj Hat. apply Hmap in Hat as [[Hj' Hat]|(j0 & -> & Hj0 & Hat)].
      * apply (Hleft j); [lia|assumption].
      * lia.
Qed.

Ltac no_char H :=
  repeat (apply in_app_or in H as [H|H]); try contradiction;
  try (vm_compute in H; repeat (destruct H as [H|H]; [discriminate H|]); contradiction).

Ltac closed_not_in :=
  let H := fresh "H" in
  intros H; vm_compute in H; repeat (destruct H as [H|H]; [discriminate H|]); exact H.

(** The group line and the build-phase line start with a tab and end with
    a comma and their only newline. *)
Lemma plain_entry_shape file_name file_ref_uuid build_file_uuid j :
  j = ViewsGroup \/ j = SourcesPhase ->
  plain file_name = true -> plain file_ref_uuid = true -> plain build_file_uuid = true ->
  exists e1,
    entry_of file_name file_ref_uuid build_file_uuid j = e1 ++ [","%char; NL] /\
    ~ In NL e1 /\
    ~ In "{"%char (entry_of file_name file_ref_uuid build_file_uuid j) /\
    ~ In ";"%char (entry_of file_name file_ref_uuid build_file_uuid j) /\
    exists e', entry_of file_name file_ref_uuid build_file_uuid j = TAB :: e'.
Proof.
  intros Hj Hn HA HB.
  apply plain_spec in Hn as (Hn1 & Hn2 & Hn3).
  apply plain_spec in HA as (Ha1 & Ha2 & Ha3).
  apply plain_spec in HB as (Hb1 & Hb2 & Hb3).
  destruct Hj as [-> | ->]; cbn [entry_of]; unfold group_entry, sources_entry.
  - exists ([TAB; TAB; TAB; TAB] ++ file_ref_uuid ++ lit " /* " ++ file_name ++ lit " */").
    split; [rewrite <- !app_assoc; reflexivity|].
    split; [intros H; no_char H|].
    split; [intros H; no_char H|].
    split; [intros H; no_char H|].
    eexists; reflexivity.
  - exists ([TAB; TAB; TAB; TAB] ++ build_file_uuid ++ lit " /* " ++ file_name ++
            lit " in Sources */").
    split; [rewrite <- !app_assoc; reflexivity|].
    split; [intros H; no_char H|].
    split; [intros H; no_char H|].
    split; [intros H; no_char H|].
    eexists; reflexivity.
Qed.

(** No literal of an anchor pattern can share a character with such a
    line. *)
Lemma plain_entry_inert file_name file_ref_uuid build_file_uuid j k :
  j = ViewsGroup \/ j = SourcesPhase ->
  plain file_name = true -> plain file_ref_uuid = true -> plain build_file_uuid = true ->
  inert_for (entry_of file_name file_ref_uuid build_file_uuid j) (pattern_of k).
Proof.
  intros Hj Hn HA HB.
  destruct (@plain_entry_shape file_name file_ref_uuid build_file_uuid j Hj Hn HA HB)
    as (e1 & Ee & He1 & Hbr & Hsc & _).
  set (e := entry_of file_name file_ref_uuid build_file_uuid j) in *. clearbody e.
  assert (Htail : forall l0 c, ~ In NL (l0 ++ [c]) -> c <> ","%char ->
                               no_start_in (l0 ++ [c; NL]) e).
  { intros l0 c H1 H2. rewrite Ee. now apply no_start_tail. }
  assert (HeNL : e = (e1 ++ [","%char]) ++ [NL]) by (rewrite Ee, <- app_assoc; reflexivity).
  assert (Hchar : forall l ch, In ch l -> ~ In ch e -> ~ In NL l -> no_start_in l e).
  { intros l ch H1 H2 H3. apply (@no_start_char l e ch (e1 ++ [","%char]) H1 H2 H3 HeNL). }
  destruct k; cbn [pattern_of];
    unfold build_file_section_re, file_ref_section_re, views_group_pattern, sources_pattern;
    cbn [inert_for].
  - split; [discriminate|]. split; [closed_not_in|]. split; [|split; [intros _ H; exact H|exact I]].
    change (lit "/* Begin PBXBuildFile section */" ++ [NL])
      with (lit "/* Begin PBXBuildFile section *" ++ ["/"%char; NL]).
    apply Htail; [closed_not_in|discriminate].
  - split; [discriminate|]. split; [closed_not_in|]. split; [|split; [intros _ H; exact H|exact I]].
    change (lit "/* Begin PBXFileReference section */" ++ [NL])
      with (lit "/* Begin PBXFileReference section *" ++ ["/"%char; NL]).
    apply Htail; [closed_not_in|discriminate].
  - split; [discriminate|]. split; [closed_not_in|]. split; [|split].
    + apply (Hchar _ "{"%char); [vm_compute; tauto|assumption|closed_not_in].
    + intros [l0 H] _. apply (f_equal (@rev ascii)) in H. rewrite rev_app_distr in H.
      vm_compute in H. discriminate H.
    + split; [intros H; exact H|].
      split; [discriminate|]. split; [closed_not_in|].
      split; [|split; [intros _ H; exact H|exact I]].
      change (lit "children = (" ++ [NL]) with (lit "children = " ++ ["("%char; NL]).
      apply Htail; [closed_not_in|discriminate].
  - split; [discriminate|]. split; [closed_not_in|]. split; [|split].
    + apply (Hchar _ "{"%char); [vm_compute; tauto|assumption|closed_not_in].
    + intros [l0 H] _. apply (f_equal (@rev ascii)) in H. rewrite rev_app_distr in H.
      vm_compute in H. discriminate H.
    + split; [intros H; exact H|].
      split; [discriminate|]. split; [closed_not_in|]. split; [|split].
      * apply (Hchar _ ";"%char); [vm_compute; tauto|assumption|closed_not_in].
      * intros [l0 H] _. apply (f_equal (@rev ascii)) in H. rewrite rev_app_distr in H.
        vm_compute in H. discriminate H.
      * split; [intros H; exact H|].
        split; [discriminate|]. split; [closed_not_in|].
        split; [|split; [intros _ H; exact H|exact I]].
        change (lit "files = (" ++ [NL]) with (lit "files = " ++ ["("%char; NL]).
        apply Htail; [closed_not_in|discriminate].
Qed.

(** file_ref_uuid match of an anchor pattern ends with a character other than a comma
    and a newline. *)
Lemma anchor_match_end k w :
  matches (pattern_of k) w -> exists y c, w = y ++ [c; NL] /\ c <> ","%char.
Proof.
  intros H. apply anchor_ends_with_tail in H as [w0 ->]. destruct k; cbn [anchor_tail].
  - exists (w0 ++ lit "/* Begin PBXBuildFile section *"), "/"%char.
    split; [rewrite <- app_assoc; reflexivity|discriminate].
  - exists (w0 ++ lit "/* Begin PBXFileReference section *"), "/"%char.
    split; [rewrite <- app_assoc; reflexivity|discriminate].
  - exists (w0 ++ lit "children = "), "("%char.
    split; [rewrite <- app_assoc; reflexivity|discriminate].
  - exists (w0 ++ lit "files = "), "("%char.
    split; [rewrite <- app_assoc; reflexivity|discriminate].
Qed.

Lemma firstn_skipn_within (u r1 r2 : text) i n :
  i + n <= length u -> firstn n (skipn i (u ++ r1)) = firstn n (skipn i (u ++ r2)).
Proof.
  intros H. rewrite !skipn_app, !firstn_app, length_skipn.
  replace (n - (length u - i)) with 0 by lia. reflexivity.
Qed.

(** Whatever line of the four goes in, every anchor whose text no anchor
    can end inside stays where it was, moved right by the line when the line
    went in before it; a missing anchor stays missing. *)
Lemma anchor_stable file_name file_ref_uuid build_file_uuid a b x :
  plain file_name = true -> plain file_ref_uuid = true -> plain build_file_uuid = true ->
  (forall z, matched_text b x = Some z -> zone_safe z (anchor_tail a) = true) ->
  anchor_end b (sub_step file_name file_ref_uuid build_file_uuid a x) =
    moved (anchor_end a x) (length (entry_of file_name file_ref_uuid build_file_uuid a))
          (anchor_end b x) /\
  matched_text b (sub_step file_name file_ref_uuid build_file_uuid a x) = matched_text b x.
Proof.
  intros Hn HA HB Hsafe. unfold sub_step.
  destruct (insert_after_cases (pattern_of a)
              (entry_of file_name file_ref_uuid build_file_uuid a) x)
    as [[Ea ->]|(m & pre & w & post & Ea & Ex & _ & Hq & Hw & ->)].
  { unfold anchor_end. rewrite Ea. simpl. split; [|reflexivity].
    now destruct (search (pattern_of b) x). }
  set (E := entry_of file_name file_ref_uuid build_file_uuid a) in *.
  set (u := pre ++ w) in *.
  assert (Exu : x = u ++ post) by (unfold u; now rewrite <- app_assoc).
  assert (Exu' : pre ++ w ++ E ++ post = u ++ E ++ post)
    by (unfold u; now rewrite <- app_assoc).
  rewrite Exu'. clear Exu'.
  destruct (anchor_ends_with_tail _ Hw) as [w0 Ew0].
  destruct (@anchor_match_shape a w Hw) as (_ & _ & [wn Ewn]).
  assert (HE : E <> []).
  { destruct (entry_of_tab file_name file_ref_uuid build_file_uuid a) as [e' He'].
    unfold E. rewrite He'. discriminate. }
  assert (Hne : forall w', matches (pattern_of b) w' -> w' <> []).
  { intros w' Hw'. destruct (@anchor_match_shape b w' Hw') as (_ & [w'' ->] & _).
    discriminate. }
  assert (Hinert : forall a' w' b', u ++ E ++ post = a' ++ w' ++ b' ->
            matches (pattern_of b) w' ->
            (exists t, u = a' ++ w' ++ t) \/ (exists t, post = t ++ w' ++ b') \/
            (exists w1 w2, w' = w1 ++ E ++ w2 /\ u = a' ++ w1 /\ post = w2 ++ b' /\
                           w1 <> [] /\ w2 <> [] /\ matches (pattern_of b) (w1 ++ w2))).
  { intros a' w' b' Eq Hw'.
    assert (Hcase : (a = BuildFile \/ a = FileRef) \/ (a = ViewsGroup \/ a = SourcesPhase))
      by (destruct a; auto).
    destruct Hcase as [Hbr|Hpl].
    - destruct (@plain_spec file_name Hn) as (Hn' & _), (@plain_spec file_ref_uuid HA) as (HA' & _),
        (@plain_spec build_file_uuid HB) as (HB' & _).
      destruct (@braced_entry_shape file_name file_ref_uuid build_file_uuid a Hbr Hn' HA' HB')
        as (e0 & Ee & He0).
      destruct (@anchor_match_shape b w' Hw') as (Hnb & Hs & He).
      assert (Hsl : ";"%char <> "/"%char) by discriminate.
      fold E in Ee. rewrite Ee in Eq.
      destruct (@braced_line_inert u e0 post a' w' b' ";"%char He0 Hsl Hnb Hs He Eq)
        as [H|H]; auto.
    - destruct (@plain_entry_shape file_name file_ref_uuid build_file_uuid a Hpl Hn HA HB)
        as (e1 & Ee & He1 & _ & _ & Htab).
      pose proof (@plain_entry_inert file_name file_ref_uuid build_file_uuid a b
                    Hpl Hn HA HB) as Hin.
      fold E in Ee, Htab, Hin.
      assert (Hp : exists l p', pattern_of b = Lit l :: p')
        by (destruct b; eexists; eexists; reflexivity).
      destruct Hp as (l & p' & Hp).
      apply (@plain_line_inert u E post a' w' b' (pattern_of b) l p' e1 Hp Hin Hw' Htab Ee He1
               (anchor_match_end _ Hw')); [|assumption].
      exists (pre ++ wn). unfold u. rewrite Ewn. now rewrite <- app_assoc. }
  pose proof (@block_stable (pattern_of b) u E post (anchor_longest b) Hne HE Hinert) as Hst.
  rewrite <- Exu in Hst.
  unfold anchor_end, matched_text in *. rewrite Ea. cbn [option_map moved].
  destruct (search (pattern_of b) x) as [mb|] eqn:Eb.
  2:{ rewrite Hst. split; reflexivity. }
  destruct (search_some _ _ Eb) as (H1 & H2 & _).
  assert (Hpos : m_end mb <= length u \/ length u <= m_start mb).
  { destruct (le_lt_dec (m_end mb) (length u)) as [|Hlt]; [now left|].
    destruct (le_lt_dec (length u) (m_start mb)) as [|Hgt]; [now right|exfalso].
    destruct (search_split _ _ Eb) as (P & Z & R & ExP & HP & HPZ & HZ).
    assert (EZ : firstn (m_end mb - m_start mb) (skipn (m_start mb) x) = Z).
    { rewrite ExP, <- HP, skipn_app, skipn_all, Nat.sub_diag. simpl.
      apply firstn_exact. rewrite length_app in HPZ. lia. }
    specialize (Hsafe Z). rewrite EZ in Hsafe. specialize (Hsafe eq_refl).
    assert (Eq : (P ++ Z) ++ R = u ++ post) by (rewrite <- Exu, ExP; now rewrite <- app_assoc).
    apply app_eq_app in Eq as [t [[E1 E2]|[E1 E2]]].
    2:{ rewrite E1, length_app in Hlt. lia. }
    apply app_eq_app in E1 as [t1 [[E3 E4]|[E3 E4]]].
    { rewrite E3, length_app in HP. lia. }
    apply (@no_cut Z (anchor_tail a) t1 t (pre ++ w0) P Hsafe E4).
    - intros ->. rewrite E3, app_nil_r in Hgt. lia.
    - intros ->. rewrite app_nil_r in E4. subst t1. rewrite E3 in Hlt. lia.
    - rewrite <- E3. unfold u. rewrite Ew0. now rewrite <- !app_assoc. }
  rewrite (Hst Hpos). rewrite <- Hq. fold u. cbn [option_map].
  destruct (Nat.ltb_spec (length u) (m_end mb)) as [Hlt|Hge]; cbn [m_start m_end]; split;
    try reflexivity.
  - f_equal. assert (Hu : length u <= m_start mb) by lia.
    rewrite skipn_past by assumption. rewrite <- Exu. f_equal. lia.
  - f_equal. rewrite Exu. apply firstn_skipn_within. lia.
Qed.

Lemma unnested_safe a b c z :
  unnested c = true -> matched_text b c = Some z ->
  zone_safe z (anchor_tail a) = true.
Proof.
  unfold unnested. rewrite forallb_forall. intros H Hz.
  assert (Hb : In b implemented_order) by (destruct b; simpl; auto).
  apply H in Hb. rewrite Hz, forallb_forall in Hb. apply Hb. destruct a; simpl; auto.
Qed.

(** The text an anchor matches, or that it matches none, is the same
    whatever sub-steps ran. *)
Lemma matched_text_run file_name file_ref_uuid build_file_uuid b order : forall c,
  plain file_name = true -> plain file_ref_uuid = true -> plain build_file_uuid = true ->
  (forall a z, matched_text b c = Some z -> zone_safe z (anchor_tail a) = true) ->
  matched_text b (run_order file_name file_ref_uuid build_file_uuid order c) = matched_text b c.
Proof.
  induction order as [|a order IH]; intros c Hn HA HB Hc; [reflexivity|].
  change (run_order file_name file_ref_uuid build_file_uuid (a :: order) c)
    with (run_order file_name file_ref_uuid build_file_uuid order
            (sub_step file_name file_ref_uuid build_file_uuid a c)).
  destruct (@anchor_stable file_name file_ref_uuid build_file_uuid a b c Hn HA HB (Hc a))
    as [_ Hmt].
  rewrite IH; auto. now rewrite Hmt.
Qed.

(** When no anchor can end strictly inside the text an anchor pattern
    matches, no insertion changes whether or where another sub-step finds
    its anchor. *)
Lemma unnested_stable file_name file_ref_uuid build_file_uuid c :
  plain file_name = true -> plain file_ref_uuid = true -> plain build_file_uuid = true ->
  unnested c = true -> stable_anchors file_name file_ref_uuid build_file_uuid c.
Proof.
  intros Hn HA HB Hu done a b _.
  apply anchor_stable; auto.
  intros z Hz. rewrite matched_text_run in Hz; auto.
  - apply (@unnested_safe a b c z Hu Hz).
  - intros a' z' Hz'. apply (@unnested_safe a' b c z' Hu Hz').
Qed.

Lemma found_matched_text k x : found k x = false <-> matched_text k x = None.
Proof.
  unfold found, matched_text. destruct (search (pattern_of k) x); split; congruence.
Qed.

(** An anchor that is not in the manifest is not found when its turn
    comes: no line creates one. *)
Lemma missing_stays_missing file_name file_ref_uuid build_file_uuid k c :
  plain file_name = true -> plain file_ref_uuid = true -> plain build_file_uuid = true ->
  found k c = false -> found_at_turn file_name file_ref_uuid build_file_uuid k c = false.
Proof.
  intros Hn HA HB H.
  destruct (found_at_turn_run file_name file_ref_uuid build_file_uuid k) as [done ->].
  apply found_matched_text in H. apply found_matched_text.
  rewrite matched_text_run; auto.
  intros a z Hz. rewrite H in Hz. discriminate Hz.
Qed.


(** So on such a manifest the sub-steps can run in any order. *)
Lemma unnested_run_order file_name file_ref_uuid build_file_uuid c order :
  plain file_name = true -> plain file_ref_uuid = true -> plain build_file_uuid = true ->
  unnested c = true ->
  Permutation implemented_order order ->
  run_order file_name file_ref_uuid build_file_uuid order c =
  run_order file_name file_ref_uuid build_file_uuid implemented_order c.
Proof.
  intros Hn Ha Hb Hu Hperm. symmetry.
  apply (@stable_run_order file_name file_ref_uuid build_file_uuid c
           (@unnested_stable file_name file_ref_uuid build_file_uuid c Hn Ha Hb Hu)
           implemented_order order Hperm []).
  simpl. repeat constructor; simpl; intuition discriminate.
Qed.


(** * The claims *)

Section Claims.

Variables file_name file_ref_uuid build_file_uuid : text.

Local Abbreviation sub_step := (sub_step file_name file_ref_uuid build_file_uuid).
Local Abbreviation run_order := (run_order file_name file_ref_uuid build_file_uuid).
Local Abbreviation entry_of := (entry_of file_name file_ref_uuid build_file_uuid).
Local Abbreviation insertions := (insertions file_name file_ref_uuid build_file_uuid).
Local Abbreviation hits := (hits file_name file_ref_uuid build_file_uuid).
Local Abbreviation total_length := (total_length file_name file_ref_uuid build_file_uuid).
Local Abbreviation before := (before file_name file_ref_uuid build_file_uuid).
Local Abbreviation found_at_turn := (found_at_turn file_name file_ref_uuid build_file_uuid).
Local Abbreviation all_found_at_turn :=
  (all_found_at_turn file_name file_ref_uuid build_file_uuid).
Local Abbreviation only_missing := (only_missing file_name file_ref_uuid build_file_uuid).

Lemma match_starts_slash k w :
  matches (pattern_of k) w -> exists w', w = "/"%char :: w'.
Proof.
  intros H. destruct k; inversion H; subst; eexists; reflexivity.
Qed.

(** C1 (amended).  When each of the four sub-steps finds its anchor in the
    text it searches, the text as the sub-steps before it left it, [patch]
    inserts exactly four lines, one right after each section's anchor, each
    the table's line for that section followed by a newline; every step
    keeps the text it found, so the output is the input with four pure
    insertions, and it is longer by the four lines.  With no newline in the
    file name and the identifiers, the output has four more lines than the
    input.  Each sub-step finds its anchor, in particular, on every manifest
    that holds all four anchors with none of them ending strictly inside the
    text another one matches. *)
Theorem patch_inserts_four_lines c file_path :
  separated c = true \/ all_found_at_turn c = true ->
  insertions implemented_order c
    (patch c file_name file_path file_ref_uuid build_file_uuid) /\
  length (patch c file_name file_path file_ref_uuid build_file_uuid) =
    length c + total_length implemented_order /\
  (forall k,
     entry_of k = Table.line_of file_ref_uuid build_file_uuid file_name k ++ [NL]) /\
  (~ In NL file_name -> ~ In NL file_ref_uuid -> ~ In NL build_file_uuid ->
   newlines (patch c file_name file_path file_ref_uuid build_file_uuid) =
     newlines c + 4).
Proof.
  intros H.
  assert (H' : all_found_at_turn c = true).
  { destruct H as [H|H]; [|exact H].
    exact (separated_all_found_at_turn file_name file_ref_uuid build_file_uuid c [] H). }
  clear H. apply all_found_at_turn_hits in H'.
  assert (Hins : insertions implemented_order c (run_order implemented_order c)).
  { rewrite <- H' at 1. apply run_order_insertions. }
  rewrite patch_run_order. repeat split.
  - exact Hins.
  - now apply insertions_length.
  - apply entry_of_table.
  - intros Hn Ha Hb.
    apply (@insertions_newlines file_name file_ref_uuid build_file_uuid
             implemented_order c _ Hn Ha Hb Hins).
Qed.

(** C2 (amended).  [patch] is a total function: a missing anchor is never an
    error.  When one sub-step does not find its anchor in the text it
    searches and the other three do, that sub-step returns its input as it
    is and the output is the input with the three other lines inserted; with
    the group anchor missing these are the build-file, the file-reference and
    the build-phase line.  With no newline in the file name and the
    identifiers, the output has three more lines than the input.  This is
    what happens, in particular, when one anchor is absent from the
    manifest, the other three are there with no anchor ending strictly
    inside the text they match, and the file name and the identifiers hold
    no newline, opening brace or semicolon. *)
Theorem patch_skips_missing_anchor c file_path k :
  only_missing k c = true \/
  (found k c = false /\ separated_but k c = true /\
   plain file_name = true /\ plain file_ref_uuid = true /\
   plain build_file_uuid = true) ->
  sub_step k (before k c) = before k c /\
  insertions (remove section_id_eq_dec k implemented_order) c
    (patch c file_name file_path file_ref_uuid build_file_uuid) /\
  length (remove section_id_eq_dec k implemented_order) = 3 /\
  length (patch c file_name file_path file_ref_uuid build_file_uuid) =
    length c + total_length (remove section_id_eq_dec k implemented_order) /\
  remove section_id_eq_dec ViewsGroup implemented_order =
    [BuildFile; FileRef; SourcesPhase] /\
  (~ In NL file_name -> ~ In NL file_ref_uuid -> ~ In NL build_file_uuid ->
   newlines (patch c file_name file_path file_ref_uuid build_file_uuid) =
     newlines c + 3).
Proof.
  intros H.
  assert (H' : only_missing k c = true).
  { destruct H as [H|(H1 & H2 & Hn & Ha & Hb)]; [exact H|].
    apply separated_but_only_missing; [|exact H2].
    now apply missing_stays_missing. }
  clear H. apply only_missing_hits in H' as [Hk H].
  assert (Hins : insertions (remove section_id_eq_dec k implemented_order) c
                   (run_order implemented_order c)).
  { rewrite <- H. apply run_order_insertions. }
  assert (Hthree : length (remove section_id_eq_dec k implemented_order) = 3)
    by now destruct k.
  rewrite patch_run_order. repeat split.
  - now apply sub_step_skip.
  - exact Hins.
  - exact Hthree.
  - now apply insertions_length.
  - intros Hn Ha Hb. rewrite <- Hthree.
    apply (@insertions_newlines file_name file_ref_uuid build_file_uuid
             _ c _ Hn Ha Hb Hins).
Qed.

(** C6.  When a sub-step finds its anchor, the match is not empty and the
    line goes in at the end of the matched text: the output is the text up
    to the match end, the line, and the rest of the text.  Putting the line
    at the start of the match would give another text. *)
Theorem insertion_after_match_end k c m :
  search (pattern_of k) c = Some m ->
  m_start m < m_end m /\ m_end m <= length c /\
  matches (pattern_of k) (firstn (m_end m - m_start m) (skipn (m_start m) c)) /\
  sub_step k c = firstn (m_end m) c ++ entry_of k ++ skipn (m_end m) c /\
  sub_step k c <> firstn (m_start m) c ++ entry_of k ++ skipn (m_start m) c.
Proof.
  intros H.
  assert (Hstep : sub_step k c = firstn (m_end m) c ++ entry_of k ++ skipn (m_end m) c).
  { rewrite sub_step_unfold. now rewrite H. }
  destruct (search_split _ _ H) as (pre & w & post & Hc & Hs & He & Hm).
  destruct (search_some _ _ H) as (H1 & H2 & H3 & _).
  destruct (match_starts_slash _ Hm) as [w' ->].
  rewrite length_app in He. simpl in He.
  repeat split; auto; try lia.
  rewrite Hstep. fold (splice c (m_end m) (entry_of k)).
  fold (splice c (m_start m) (entry_of k)).
  replace (m_end m) with (length (pre ++ "/"%char :: w'))
    by (rewrite length_app; exact He).
  rewrite <- Hs. rewrite Hc at 1. rewrite app_assoc, splice_at.
  rewrite Hc, splice_at, <- app_assoc.
  intros E. apply app_inv_head in E.
  destruct (entry_of_tab file_name file_ref_uuid build_file_uuid k) as [e Ee].
  rewrite Ee in E. discriminate E.
Qed.

(** C7.  Each sub-step of the script searches and splices the text its
    predecessor returned; it returns that text as it is, or that text made
    longer by its one line, put in at the match end found in that very text.
    So the length never goes down from one sub-step to the next. *)
Theorem sub_steps_chain c file_path :
  before BuildFile c = c /\
  before FileRef c = sub_step BuildFile (before BuildFile c) /\
  before ViewsGroup c = sub_step FileRef (before FileRef c) /\
  before SourcesPhase c = sub_step ViewsGroup (before ViewsGroup c) /\
  patch c file_name file_path file_ref_uuid build_file_uuid =
    sub_step SourcesPhase (before SourcesPhase c) /\
  (forall k,
     length (before k c) <= length (sub_step k (before k c)) /\
     ((search (pattern_of k) (before k c) = None /\
       sub_step k (before k c) = before k c) \/
      (exists m, search (pattern_of k) (before k c) = Some m /\
         sub_step k (before k c) = splice (before k c) (m_end m) (entry_of k) /\
         length (sub_step k (before k c)) =
           length (before k c) + length (entry_of k) /\
         length (before k c) < length (sub_step k (before k c))))) /\
  length c <= length (patch c file_name file_path file_ref_uuid build_file_uuid).
Proof.
  repeat split; try reflexivity.
  - rewrite sub_step_length. lia.
  - rewrite sub_step_unfold.
    destruct (search (pattern_of k) (before k c)) as [m|]; [right|left; auto].
    exists m. rewrite splice_length.
    pose proof (entry_of_length file_name file_ref_uuid build_file_uuid k).
    repeat split; auto. lia.
  - rewrite patch_run_order. apply run_order_length.
Qed.

(** C9.  The file path is not used by any inserted line: two runs that
    differ only in the path give the same text. *)
Theorem patch_ignores_file_path c file_path file_path' :
  patch c file_name file_path file_ref_uuid build_file_uuid =
  patch c file_name file_path' file_ref_uuid build_file_uuid.
Proof. reflexivity. Qed.


(** C3 (amended).  [patch] is not idempotent.  On a text that holds the
    build-file or the file-reference section marker, a second run with the
    same arguments finds the marker again and makes the text longer once
    more.  When every sub-step of both runs finds its anchor in the text it
    searches, as on every manifest that holds all four anchors with none of
    them ending strictly inside the text another one matches, the second
    output is the input with eight pure insertions, each of the four lines
    twice. *)
Theorem patch_twice_inserts_again c file_path :
  found BuildFile c = true \/ found FileRef c = true ->
  length (patch c file_name file_path file_ref_uuid build_file_uuid) <
    length (patch (patch c file_name file_path file_ref_uuid build_file_uuid)
              file_name file_path file_ref_uuid build_file_uuid) /\
  patch (patch c file_name file_path file_ref_uuid build_file_uuid)
    file_name file_path file_ref_uuid build_file_uuid <>
  patch c file_name file_path file_ref_uuid build_file_uuid /\
  (separated c = true \/
   (all_found_at_turn c = true /\
    all_found_at_turn (patch c file_name file_path file_ref_uuid build_file_uuid) = true) ->
   insertions (implemented_order ++ implemented_order) c
     (patch (patch c file_name file_path file_ref_uuid build_file_uuid)
        file_name file_path file_ref_uuid build_file_uuid)).
Proof.
  intros Hc. rewrite !patch_run_order.
  set (y := run_order implemented_order c).
  assert (Hlen : length y < length (run_order implemented_order y)).
  { destruct Hc as [Hc|Hc].
    - assert (Hy : found BuildFile y = true)
        by (apply marker_survives_run; auto).
      change (run_order implemented_order y)
        with (run_order [FileRef; ViewsGroup; SourcesPhase] (sub_step BuildFile y)).
      pose proof (run_order_length file_name file_ref_uuid build_file_uuid
                    [FileRef; ViewsGroup; SourcesPhase] (sub_step BuildFile y)) as Hr.
      pose proof (sub_step_length file_name file_ref_uuid build_file_uuid BuildFile y) as Hs.
      rewrite Hy in Hs.
      pose proof (entry_of_length file_name file_ref_uuid build_file_uuid BuildFile).
      lia.
    - assert (Hy : found FileRef (sub_step BuildFile y) = true).
      { apply marker_survives; auto. apply marker_survives_run; auto. }
      change (run_order implemented_order y)
        with (run_order [ViewsGroup; SourcesPhase]
                (sub_step FileRef (sub_step BuildFile y))).
      pose proof (run_order_length file_name file_ref_uuid build_file_uuid
                    [ViewsGroup; SourcesPhase]
                    (sub_step FileRef (sub_step BuildFile y))) as Hr.
      pose proof (sub_step_length file_name file_ref_uuid build_file_uuid
                    FileRef (sub_step BuildFile y)) as Hs.
      rewrite Hy in Hs.
      pose proof (sub_step_length file_name file_ref_uuid build_file_uuid BuildFile y) as Hs1.
      pose proof (entry_of_length file_name file_ref_uuid build_file_uuid FileRef).
      lia. }
  repeat split.
  - exact Hlen.
  - intros E. rewrite E in Hlen. lia.
  - intros [H|[H1 H2]].
    { now apply separated_eight_lines. }
    apply all_found_at_turn_hits in H1, H2.
    apply insertions_app with (c1 := y).
    + rewrite <- H1 at 1. apply run_order_insertions.
    + rewrite <- H2 at 1. apply run_order_insertions.
Qed.

(** C8 (amended).  On a manifest in which no anchor can end strictly inside
    the text one of the four anchor patterns matches, and with a file name
    and identifiers that hold no newline, opening brace or semicolon, the
    four sub-steps can run in any order: every permutation of the implemented
    order gives the text [patch] gives. *)
Theorem unnested_any_order c file_path order :
  plain file_name = true -> plain file_ref_uuid = true ->
  plain build_file_uuid = true ->
  unnested c = true ->
  Permutation implemented_order order ->
  run_order order c = patch c file_name file_path file_ref_uuid build_file_uuid.
Proof.
  intros Hn Ha Hb Hu Hperm. rewrite patch_run_order.
  now apply unnested_run_order.
Qed.

End Claims.

(** C5.  Whatever number [uuid4] draws, [generate_uuid] returns; what it
    returns has exactly 24 characters, each one of [0-9A-F]. *)
Theorem generate_uuid_24_upper_hex r :
  length (generate_uuid r) = 24 /\
  Forall (fun x => In x upper_hex_digits) (generate_uuid r).
Proof.
  split; [|apply UuidFacts.generate_uuid_chars].
  unfold generate_uuid, upper.
  rewrite UuidFacts.str_without_hyphens, UuidFacts.join_chars.
  pose proof (UuidFacts.format_032x_length (Uuid.uuid4 r)) as Hlen.
  rewrite length_map, length_firstn. lia.
Qed.

Import Samples.

(** C4.  Given a project file with an empty build-file section, [Foo.swift]
    at [A/Foo.swift] and the identifiers [AAAA...] and [BBBB...], the
    patched text has, right after the section marker, exactly the build-file
    line of the scenario.  This holds for the section alone, for any file
    that opens with it, and for any file in which the first build-file
    section marker is the one of that section. *)
Theorem foo_build_file_section_begins_with_line :
  patch empty_build_file_section foo_name foo_path ID_A ID_B =
    empty_build_file_section ++ foo_build_file_line /\
  (forall rest, exists rest',
     patch (empty_build_file_section ++ rest) foo_name foo_path ID_A ID_B =
     empty_build_file_section ++ foo_build_file_line ++ rest') /\
  (forall pre rest,
     search build_file_section_re (pre ++ empty_build_file_section ++ rest) =
       Some {| m_start := length pre;
               m_end := length pre + length empty_build_file_section |} ->
     exists pre' rest',
       patch (pre ++ empty_build_file_section ++ rest) foo_name foo_path ID_A ID_B =
       pre' ++ empty_build_file_section ++ foo_build_file_line ++ rest').
Proof.
  split; [vm_compute; reflexivity|]. split.
  - intros rest.
    set (ml := empty_build_file_section ++ foo_build_file_line).
    set (x1 := sub_step foo_name ID_A ID_B BuildFile (empty_build_file_section ++ rest)).
    assert (H1 : x1 = ml ++ rest).
    { unfold x1. rewrite sub_step_unfold.
      assert (Hm : match_here (pattern_of BuildFile) (empty_build_file_section ++ rest)
                   = Some (length empty_build_file_section)).
      { change (pattern_of BuildFile) with [Lit empty_build_file_section].
        cbn [match_here]. rewrite starts_with_app. cbn [option_map].
        now rewrite Nat.add_0_r. }
      rewrite (search_at_start _ _ Hm). cbn [m_end]. rewrite splice_at.
      unfold ml. now rewrite <- app_assoc. }
    assert (P1 : firstn (length ml) x1 = ml).
    { rewrite H1, firstn_app, firstn_all, Nat.sub_diag, firstn_O. apply app_nil_r. }
    set (x2 := sub_step foo_name ID_A ID_B FileRef x1).
    assert (P2 : firstn (length ml) x2 = ml).
    { unfold x2, sub_step. rewrite insert_after_keeps_prefix; [exact P1|].
      rewrite P1. vm_compute. reflexivity. }
    set (x3 := sub_step foo_name ID_A ID_B ViewsGroup x2).
    assert (P3 : firstn (length ml) x3 = ml).
    { unfold x3, sub_step. rewrite insert_after_keeps_prefix; [exact P2|].
      rewrite P2. vm_compute. reflexivity. }
    set (x4 := sub_step foo_name ID_A ID_B SourcesPhase x3).
    assert (P4 : firstn (length ml) x4 = ml).
    { unfold x4, sub_step. rewrite insert_after_keeps_prefix; [exact P3|].
      rewrite P3. vm_compute. reflexivity. }
    exists (skipn (length ml) x4).
    change (patch (empty_build_file_section ++ rest) foo_name foo_path ID_A ID_B) with x4.
    rewrite <- (firstn_skipn (length ml) x4) at 1. rewrite P4.
    unfold ml. now rewrite <- app_assoc.
  - intros pre rest Hs.
    set (zone := empty_build_file_section ++ foo_build_file_line).
    set (c := pre ++ empty_build_file_section ++ rest) in *.
    assert (Z1 : exists pre' rest',
               sub_step foo_name ID_A ID_B BuildFile c = pre' ++ zone ++ rest').
    { exists pre, rest. rewrite sub_step_unfold.
      change (pattern_of BuildFile) with build_file_section_re. rewrite Hs. cbn [m_end].
      unfold c. rewrite <- length_app, app_assoc, splice_at.
      unfold zone. now rewrite <- !app_assoc. }
    assert (Hstep : forall k x,
               k <> BuildFile ->
               (exists pre' rest', x = pre' ++ zone ++ rest') ->
               exists pre' rest', sub_step foo_name ID_A ID_B k x = pre' ++ zone ++ rest').
    { intros k x Hk Hx. unfold sub_step.
      apply insert_after_keeps_zone with (tail := anchor_tail k); [| |exact Hx].
      - apply anchor_ends_with_tail.
      - destruct k; [contradiction| | |]; vm_compute; reflexivity. }
    assert (Z4 : exists pre' rest',
               patch c foo_name foo_path ID_A ID_B = pre' ++ zone ++ rest').
    { unfold patch. fold (sub_step foo_name ID_A ID_B).
      change (insert_after build_file_section_re
                (build_file_entry foo_name ID_A ID_B) c)
        with (sub_step foo_name ID_A ID_B BuildFile c).
      change (insert_after sources_pattern (sources_entry foo_name ID_B))
        with (sub_step foo_name ID_A ID_B SourcesPhase).
      change (insert_after views_group_pattern (group_entry foo_name ID_A))
        with (sub_step foo_name ID_A ID_B ViewsGroup).
      change (insert_after file_ref_section_re (file_ref_entry foo_name ID_A))
        with (sub_step foo_name ID_A ID_B FileRef).
      repeat (apply Hstep; [discriminate|]). exact Z1. }
    destruct Z4 as (pre' & rest' & ->). exists pre', rest'.
    unfold zone. now rewrite <- !app_assoc.
Qed.

(** ** The theorems at sample inputs *)

Lemma patch_inserts_four_lines_witness :
  (separated project = true \/
   all_found_at_turn the_file_name ID_A ID_B project = true) /\
  insertions the_file_name ID_A ID_B implemented_order project
    (patch project the_file_name the_file_path ID_A ID_B).
Proof.
  assert (H : separated project = true \/
              all_found_at_turn the_file_name ID_A ID_B project = true)
    by (left; vm_compute; reflexivity).
  split; [exact H|].
  exact (proj1 (patch_inserts_four_lines the_file_name ID_A ID_B project the_file_path H)).
Defined.

(** C1 as stated fails on [nested]: the text holds all four anchors, but
    the build-file line lands between the brace of the [Views] group and its
    children opener, the group pattern no longer matches when its turn comes,
    and only three lines go in. *)
Lemma nested_anchors_three_lines :
  found BuildFile nested = true /\ found FileRef nested = true /\
  found ViewsGroup nested = true /\ found SourcesPhase nested = true /\
  length (patch nested the_file_name the_file_path ID_A ID_B) =
    length nested +
    total_length the_file_name ID_A ID_B [BuildFile; FileRef; SourcesPhase] /\
  search [Lit (group_entry the_file_name ID_A)]
    (patch nested the_file_name the_file_path ID_A ID_B) = None /\
  ~ insertions the_file_name ID_A ID_B implemented_order nested
      (patch nested the_file_name the_file_path ID_A ID_B).
Proof.
  repeat split; try (vm_compute; reflexivity).
  intros H. apply insertions_length in H. vm_compute in H. discriminate H.
Qed.

Lemma patch_skips_missing_anchor_witness :
  (found ViewsGroup project_no_group = false /\
   separated_but ViewsGroup project_no_group = true /\
   plain the_file_name = true /\ plain ID_A = true /\ plain ID_B = true) /\
  insertions the_file_name ID_A ID_B [BuildFile; FileRef; SourcesPhase] project_no_group
    (patch project_no_group the_file_name the_file_path ID_A ID_B).
Proof.
  assert (H : found ViewsGroup project_no_group = false /\
              separated_but ViewsGroup project_no_group = true /\
              plain the_file_name = true /\ plain ID_A = true /\ plain ID_B = true)
    by (repeat split; vm_compute; reflexivity).
  split; [exact H|].
  exact (proj1 (proj2 (@patch_skips_missing_anchor the_file_name ID_A ID_B
                         project_no_group the_file_path ViewsGroup
                         (or_intror H)))).
Defined.

(** C2 as stated fails on [nested_no_group]: only the group anchor is
    absent, but the build-file line lands inside the sources build phase,
    whose pattern no longer matches when its turn comes, and only two lines
    go in. *)
Lemma nested_no_group_two_lines :
  found BuildFile nested_no_group = true /\ found FileRef nested_no_group = true /\
  found ViewsGroup nested_no_group = false /\ found SourcesPhase nested_no_group = true /\
  length (patch nested_no_group the_file_name the_file_path ID_A ID_B) =
    length nested_no_group + total_length the_file_name ID_A ID_B [BuildFile; FileRef] /\
  ~ insertions the_file_name ID_A ID_B [BuildFile; FileRef; SourcesPhase] nested_no_group
      (patch nested_no_group the_file_name the_file_path ID_A ID_B).
Proof.
  repeat split; try (vm_compute; reflexivity).
  intros H. apply insertions_length in H. vm_compute in H. discriminate H.
Qed.

Lemma insertion_after_match_end_witness :
  search (pattern_of ViewsGroup) project = Some {| m_start := 436; m_end := 487 |} /\
  sub_step the_file_name ID_A ID_B ViewsGroup project =
    firstn 487 project ++ entry_of the_file_name ID_A ID_B ViewsGroup ++ skipn 487 project.
Proof.
  assert (H : search (pattern_of ViewsGroup) project
              = Some {| m_start := 436; m_end := 487 |}) by (vm_compute; reflexivity).
  split; [exact H|].
  exact (proj1 (proj2 (proj2 (proj2
           (insertion_after_match_end the_file_name ID_A ID_B ViewsGroup project H))))).
Defined.


Lemma unnested_any_order_witness :
  plain the_file_name = true /\ plain ID_A = true /\ plain ID_B = true /\
  unnested project = true /\
  Permutation implemented_order [SourcesPhase; ViewsGroup; FileRef; BuildFile] /\
  run_order the_file_name ID_A ID_B [SourcesPhase; ViewsGroup; FileRef; BuildFile] project =
    patch project the_file_name the_file_path ID_A ID_B.
Proof.
  assert (Hn : plain the_file_name = true) by (vm_compute; reflexivity).
  assert (Ha : plain ID_A = true) by (vm_compute; reflexivity).
  assert (Hb : plain ID_B = true) by (vm_compute; reflexivity).
  assert (Hu : unnested project = true) by (vm_compute; reflexivity).
  assert (Hp : Permutation implemented_order [SourcesPhase; ViewsGroup; FileRef; BuildFile])
    by apply (Permutation_rev implemented_order).
  repeat (split; [assumption|]).
  exact (@unnested_any_order the_file_name ID_A ID_B project the_file_path
           [SourcesPhase; ViewsGroup; FileRef; BuildFile] Hn Ha Hb Hu Hp).
Defined.

(** C8 as stated fails on [nested]: with the group sub-step first, its line
    goes in before the build-file line breaks the group pattern, and four
    lines go in instead of the three of the implemented order. *)
Lemma nested_order_matters :
  Permutation implemented_order [ViewsGroup; BuildFile; FileRef; SourcesPhase] /\
  run_order the_file_name ID_A ID_B [ViewsGroup; BuildFile; FileRef; SourcesPhase] nested <>
    patch nested the_file_name the_file_path ID_A ID_B.
Proof.
  split.
  - apply Permutation_sym.
    apply (Permutation_cons_app [BuildFile; FileRef] [SourcesPhase] ViewsGroup).
    apply Permutation_refl.
  - intros E. apply (f_equal (@length ascii)) in E. vm_compute in E. discriminate E.
Qed.

Lemma patch_twice_inserts_again_witness :
  (found BuildFile project = true \/ found FileRef project = true) /\
  length (patch project the_file_name the_file_path ID_A ID_B) <
    length (patch (patch project the_file_name the_file_path ID_A ID_B)
              the_file_name the_file_path ID_A ID_B) /\
  insertions the_file_name ID_A ID_B (implemented_order ++ implemented_order) project
    (patch (patch project the_file_name the_file_path ID_A ID_B)
       the_file_name the_file_path ID_A ID_B).
Proof.
  assert (H : found BuildFile project = true \/ found FileRef project = true)
    by (left; vm_compute; reflexivity).
  destruct (@patch_twice_inserts_again the_file_name ID_A ID_B project the_file_path H)
    as (Hlen & _ & Hins).
  split; [exact H|]. split; [exact Hlen|].
  apply Hins. left. vm_compute. reflexivity.
Defined.

(** C3 as stated fails on [nested]: the text holds all four anchors, but
    neither run inserts the group line, so the second output has no two sets
    of the four lines. *)
Lemma nested_twice_no_group_line :
  found BuildFile nested = true /\ found FileRef nested = true /\
  found ViewsGroup nested = true /\ found SourcesPhase nested = true /\
  search [Lit (group_entry the_file_name ID_A)]
    (patch (patch nested the_file_name the_file_path ID_A ID_B)
       the_file_name the_file_path ID_A ID_B) = None /\
  ~ insertions the_file_name ID_A ID_B (implemented_order ++ implemented_order) nested
      (patch (patch nested the_file_name the_file_path ID_A ID_B)
         the_file_name the_file_path ID_A ID_B).
Proof.
  repeat split; try (vm_compute; reflexivity).
  intros H. apply insertions_length in H. vm_compute in H. discriminate H.
Qed.

(** ** The script as a whole *)



(** ** Two behaviours worth seeing *)

(** Greedy repetition: when the brace-free stretch after the group's brace
    holds the children opener twice, the match runs to the second one. *)
Example two_openers_match :
  search views_group_pattern two_openers = Some {| m_start := 0; m_end := 42 |} /\
  firstn 13 (skipn 16 two_openers) = anchor_tail ViewsGroup /\
  firstn 13 (skipn 29 two_openers) = anchor_tail ViewsGroup.
Proof. vm_compute. auto. Qed.

(** Offsets are those of the current text: in [project] the file-reference
    marker ends at 257, and the file-reference sub-step, run after the
    build-file line went in, inserts at 257 plus the length of that line. *)
Example file_ref_offset_moves :
  anchor_end FileRef project = Some 257 /\
  anchor_end FileRef (before the_file_name ID_A ID_B FileRef project) =
    Some (257 + length (entry_of the_file_name ID_A ID_B BuildFile)).
Proof. vm_compute. auto. Qed.

Lemma foo_build_file_section_begins_with_line_witness :
  search build_file_section_re (foo_head ++ empty_build_file_section ++ foo_rest) =
    Some {| m_start := length foo_head;
            m_end := length foo_head + length empty_build_file_section |} /\
  exists pre' rest',
    patch (foo_head ++ empty_build_file_section ++ foo_rest) foo_name foo_path ID_A ID_B =
    pre' ++ empty_build_file_section ++ foo_build_file_line ++ rest'.
Proof.
  assert (H : search build_file_section_re
                (foo_head ++ empty_build_file_section ++ foo_rest) =
              Some {| m_start := length foo_head;
                      m_end := length foo_head + length empty_build_file_section |})
    by (vm_compute; reflexivity).
  split; [exact H|].
  exact (proj2 (proj2 foo_build_file_section_begins_with_line) foo_head foo_rest H).
Defined.

(** The sample project is separated; [nested] is not, and its anchors are
    nested. *)
Example project_separated :
  separated project = true /\ separated nested = false /\ unnested nested = false.
Proof. vm_compute. auto. Qed.

(** The condition on the file name is needed: with a file name that holds a
    section marker, the order of the two section-marker sub-steps matters
    even on a manifest with nothing but the two sections. *)
Example odd_name_order_matters :
  unnested two_sections = true /\ plain odd_name = false /\
  run_order odd_name ID_A ID_B [FileRef; BuildFile; ViewsGroup; SourcesPhase] two_sections <>
    patch two_sections odd_name the_file_path ID_A ID_B.
Proof.
  split; [vm_compute; reflexivity|]. split; [vm_compute; reflexivity|].
  intros E. vm_compute in E. discriminate E.
Qed.

(** * More of the script *)

(** ** The digits of an identifier *)

Module HexFacts.

Local Open Scope N_scope.

Lemma nibble_cases v :
  v < 16 ->
  v = 0 \/ v = 1 \/ v = 2 \/ v = 3 \/ v = 4 \/ v = 5 \/ v = 6 \/ v = 7 \/
  v = 8 \/ v = 9 \/ v = 10 \/ v = 11 \/ v = 12 \/ v = 13 \/ v = 14 \/ v = 15.
Proof. lia. Qed.

Ltac nibble v H :=
  apply nibble_cases in H;
  repeat (destruct H as [H|H]; [subst v|]); [..|subst v].

Lemma of_lu_cons v d :
  v < 16 ->
  HexadecimalPos.Unsigned.of_lu (cons_digit v d) =
  v + 16 * HexadecimalPos.Unsigned.of_lu d.
Proof. intros H. nibble v H; reflexivity. Qed.

Lemma of_lu_little k : forall n,
  HexadecimalPos.Unsigned.of_lu (little_digits k n) = n mod 16 ^ N.of_nat k.
Proof.
  induction k as [|k IH]; intros n.
  - simpl. now rewrite N.mod_1_r.
  - cbn [little_digits]. rewrite of_lu_cons by (apply N.mod_lt; discriminate).
    rewrite IH, Nat2N.inj_succ, N.pow_succ_r', N.Div0.mod_mul_r. reflexivity.
Qed.

Lemma string_cons v d :
  v < 16 ->
  lit (NilEmpty.string_of_uint (cons_digit v d)) =
  hex_digit v :: lit (NilEmpty.string_of_uint d).
Proof. intros H. nibble v H; reflexivity. Qed.

Lemma string_revapp d : forall acc,
  lit (NilEmpty.string_of_uint (revapp d acc)) =
  List.rev (lit (NilEmpty.string_of_uint d)) ++ lit (NilEmpty.string_of_uint acc).
Proof.
  unfold lit.
  induction d; intros acc; simpl; rewrite ?IHd; simpl; rewrite <- ?app_assoc; reflexivity.
Qed.

Lemma string_little k : forall n,
  List.rev (lit (NilEmpty.string_of_uint (little_digits k n))) = hex_digits k n.
Proof.
  induction k as [|k IH]; intros n; [reflexivity|].
  cbn [little_digits hex_digits].
  rewrite string_cons by (apply N.mod_lt; discriminate). simpl. now rewrite IH.
Qed.

Lemma hex_digits_length k : forall n, length (hex_digits k n) = k.
Proof.
  induction k as [|k IH]; intros n; [reflexivity|].
  cbn [hex_digits]. rewrite length_app, IH. simpl. lia.
Qed.

Lemma nzhead_pad d :
  exists z, lit (NilEmpty.string_of_uint d) =
            repeat "0"%char z ++ lit (NilEmpty.string_of_uint (nzhead d)).
Proof.
  induction d; try (exists 0%nat; reflexivity).
  destruct IHd as [z Hz]. exists (S z). simpl. unfold lit in *. simpl. now rewrite Hz.
Qed.

Lemma unorm_nzhead d : nzhead d <> Nil -> unorm d = nzhead d.
Proof. unfold unorm. destruct (nzhead d); congruence. Qed.

(** Padding the digits of the normal form back to the width gives the
    digits. *)
Lemma pad_unorm d w :
  length (lit (NilEmpty.string_of_uint d)) = S w ->
  repeat "0"%char (S w - length (lit (NilEmpty.string_of_uint (unorm d)))) ++
    lit (NilEmpty.string_of_uint (unorm d)) =
  lit (NilEmpty.string_of_uint d).
Proof.
  intros Hlen. destruct (nzhead_pad d) as [z Hz].
  destruct (nzhead d) eqn:E;
    try (rewrite unorm_nzhead by (rewrite E; discriminate); rewrite E;
         rewrite Hz in Hlen |- *; rewrite length_app, repeat_length in Hlen;
         f_equal; f_equal; lia).
  unfold unorm. rewrite E. rewrite Hz in Hlen |- *. simpl in *.
  rewrite app_nil_r in Hlen. rewrite app_nil_r. rewrite repeat_length in Hlen. subst z.
  rewrite Nat.sub_0_r. change ["0"%char] with (repeat "0"%char 1).
  rewrite <- repeat_app. f_equal. lia.
Qed.

(** ['%032x' % i] is the 32 hexadecimal digits of [i]. *)
Lemma format_032x_digits i : i < 2 ^ 128 -> Uuid.format_032x i = hex_digits 32 i.
Proof.
  intros Hi. unfold Uuid.format_032x.
  set (d := Hexadecimal.rev (little_digits 32 i)).
  assert (Hd : lit (NilEmpty.string_of_uint d) = hex_digits 32 i).
  { unfold d, Hexadecimal.rev. rewrite string_revapp, string_little. apply app_nil_r. }
  assert (Hto : N.to_hex_uint i = unorm d).
  { rewrite <- HexadecimalN.Unsigned.to_of. f_equal. unfold N.of_hex_uint.
    rewrite HexadecimalPos.Unsigned.of_uint_alt. unfold d.
    rewrite HexadecimalFacts.rev_rev, of_lu_little. symmetry. apply N.mod_small. exact Hi. }
  rewrite Hto, <- Hd. apply (pad_unorm d (w := 31)).
  rewrite Hd. apply hex_digits_length.
Qed.


Lemma hex_digits_app a b : forall n,
  hex_digits (a + b) n = hex_digits a (n / 16 ^ N.of_nat b) ++ hex_digits b n.
Proof.
  induction b as [|b IH]; intros n.
  - rewrite Nat.add_0_r. simpl. now rewrite N.div_1_r, List.app_nil_r.
  - rewrite Nat.add_succ_r. cbn [hex_digits]. rewrite IH, <- app_assoc.
    rewrite N.Div0.div_div, Nat2N.inj_succ, N.pow_succ_r'. reflexivity.
Qed.

Lemma hex_digits_nth k : forall n j d,
  (j < k)%nat ->
  nth j (hex_digits k n) d = hex_digit ((n / 16 ^ N.of_nat (k - 1 - j)) mod 16).
Proof.
  induction k as [|k IH]; intros n j d Hj; [lia|].
  cbn [hex_digits]. destruct (Nat.eq_dec j k) as [->|Hne].
  - rewrite app_nth2 by (rewrite hex_digits_length; lia).
    rewrite hex_digits_length, Nat.sub_diag.
    replace (S k - 1 - k)%nat with 0%nat by lia. simpl. now rewrite N.div_1_r.
  - rewrite app_nth1 by (rewrite hex_digits_length; lia).
    rewrite IH by lia. rewrite N.Div0.div_div.
    replace (S k - 1 - j)%nat with (S (k - 1 - j)) by lia.
    now rewrite Nat2N.inj_succ, N.pow_succ_r'.
Qed.

Lemma lor_lt_128 a b : a < 2 ^ 128 -> b < 2 ^ 128 -> N.lor a b < 2 ^ 128.
Proof.
  intros Ha Hb. destruct (N.eq_dec (N.lor a b) 0) as [->|Hne]; [reflexivity|].
  apply N.log2_lt_pow2; [lia|]. rewrite N.log2_lor. apply N.max_lub_lt.
  - destruct (N.eq_dec a 0) as [->|]; [reflexivity|]. apply N.log2_lt_pow2; [lia|exact Ha].
  - destruct (N.eq_dec b 0) as [->|]; [reflexivity|]. apply N.log2_lt_pow2; [lia|exact Hb].
Qed.

(** A 128-bit draw gives a 128-bit UUID. *)
Lemma uuid4_bound r : r < 2 ^ 128 -> Uuid.uuid4 r < 2 ^ 128.
Proof.
  intros Hr. unfold Uuid.uuid4. apply lor_lt_128; [|reflexivity].
  eapply N.le_lt_trans; [apply N.ldiff_le_l|].
  apply lor_lt_128; [|reflexivity].
  eapply N.le_lt_trans; [apply N.ldiff_le_l|exact Hr].
Qed.

(** The identifier is the 24 leading digits of the UUID, in upper case. *)
Lemma generate_uuid_digits r :
  r < 2 ^ 128 -> generate_uuid r = upper (hex_digits 24 (Uuid.uuid4 r / 2 ^ 32)).
Proof.
  intros Hr. unfold generate_uuid.
  rewrite UuidFacts.str_without_hyphens, UuidFacts.join_chars.
  rewrite format_032x_digits by now apply uuid4_bound.
  rewrite (hex_digits_app 24 8).
  rewrite firstn_app, hex_digits_length, Nat.sub_diag, firstn_O, List.app_nil_r.
  rewrite firstn_all2 by (rewrite hex_digits_length; lia). reflexivity.
Qed.

Lemma uuid4_testbit r n :
  N.testbit (Uuid.uuid4 r) n =
  (((N.testbit r n && negb (N.testbit (N.shiftl 0xc000 48) n)
     || N.testbit (N.shiftl 0x8000 48) n)
    && negb (N.testbit (N.shiftl 0xf000 64) n))
   || N.testbit (N.shiftl 4 76) n)%bool.
Proof.
  unfold Uuid.uuid4. now rewrite N.lor_spec, N.ldiff_spec, N.lor_spec, N.ldiff_spec.
Qed.

(** The version digit. *)
Lemma uuid4_version r : (Uuid.uuid4 r / 2 ^ 76) mod 16 = 4.
Proof.
  rewrite <- N.shiftr_div_pow2. change 16 with (2 ^ 4). rewrite <- N.land_ones.
  apply N.bits_inj. intros n. rewrite N.land_spec, N.shiftr_spec', uuid4_testbit.
  destruct (N.lt_ge_cases n 4) as [Hn|Hn].
  - assert (H : n = 0 \/ n = 1 \/ n = 2 \/ n = 3) by lia.
    destruct H as [-> | [-> | [-> | ->]]];
      match goal with |- context [N.testbit r ?m] => generalize (N.testbit r m) end;
      intros b; destruct b; vm_compute; reflexivity.
  - rewrite (N.bits_above_log2 (N.ones 4) n) by (vm_compute N.log2; lia).
    rewrite (N.bits_above_log2 4 n) by (vm_compute N.log2; lia).
    apply andb_false_r.
Qed.

(** The variant digit. *)
Lemma uuid4_variant r :
  exists v, (Uuid.uuid4 r / 2 ^ 60) mod 16 = 8 + v /\ v < 4.
Proof.
  set (x := (Uuid.uuid4 r / 2 ^ 60) mod 16).
  assert (Hx : x < 16) by (apply N.mod_lt; discriminate).
  assert (H3 : N.testbit x 3 = true /\ N.testbit x 2 = false).
  { unfold x. rewrite <- N.shiftr_div_pow2. change 16 with (2 ^ 4).
    rewrite <- N.land_ones, !N.land_spec, !N.shiftr_spec', !uuid4_testbit.
    split;
      match goal with |- context [N.testbit r ?m] => generalize (N.testbit r m) end;
      intros b; destruct b; vm_compute; reflexivity. }
  destruct H3 as [H3 H2]. clearbody x.
  nibble x Hx; try (vm_compute in H3; discriminate H3); try (vm_compute in H2; discriminate H2).
  - now exists 0.
  - now exists 1.
  - now exists 2.
  - now exists 3.
Qed.

Lemma upper_hex_digit_inj a b :
  a < 16 -> b < 16 -> upper_char (hex_digit a) = upper_char (hex_digit b) -> a = b.
Proof.
  intros Ha Hb. nibble a Ha; nibble b Hb; intros H; try reflexivity;
    vm_compute in H; discriminate H.
Qed.

Lemma upper_hex_digits_inj k : forall a b,
  a < 16 ^ N.of_nat k -> b < 16 ^ N.of_nat k ->
  upper (hex_digits k a) = upper (hex_digits k b) -> a = b.
Proof.
  induction k as [|k IH]; intros a b Ha Hb H.
  - simpl in Ha, Hb. lia.
  - rewrite Nat2N.inj_succ, N.pow_succ_r' in Ha, Hb.
    cbn [hex_digits] in H. unfold upper in H. rewrite !map_app in H.
    apply app_inj_tail in H as [H1 H2].
    apply upper_hex_digit_inj in H2; try (apply N.mod_lt; discriminate).
    apply IH in H1; try (apply N.Div0.div_lt_upper_bound; assumption).
    rewrite (N.div_mod a 16), (N.div_mod b 16) by discriminate. now rewrite H1, H2.
Qed.

End HexFacts.

(** X1.  The identifier is not 24 random digits: a 128-bit draw always
    gives an identifier whose 13th character is the version digit [4] and
    whose 17th character is the variant digit, one of [8], [9], [A], [B]. *)
Theorem generate_uuid_version_variant r :
  (r < 2 ^ 128)%N ->
  nth 12 (generate_uuid r) "0"%char = "4"%char /\
  In (nth 16 (generate_uuid r) "0"%char) (lit "89AB").
Proof.
  intros Hr. rewrite (HexFacts.generate_uuid_digits Hr). unfold upper.
  change "0"%char with (upper_char "0"%char). rewrite !map_nth.
  rewrite !HexFacts.hex_digits_nth by lia. rewrite !N.Div0.div_div.
  split.
  - change (2 ^ 32 * 16 ^ N.of_nat (24 - 1 - 12))%N with (2 ^ 76)%N.
    now rewrite HexFacts.uuid4_version.
  - change (2 ^ 32 * 16 ^ N.of_nat (24 - 1 - 16))%N with (2 ^ 60)%N.
    destruct (HexFacts.uuid4_variant r) as (v & -> & Hv).
    assert (H : (v = 0 \/ v = 1 \/ v = 2 \/ v = 3)%N) by lia.
    destruct H as [-> | [-> | [-> | ->]]]; vm_compute; tauto.
Qed.

Lemma generate_uuid_version_variant_witness :
  (sample_draw < 2 ^ 128)%N /\ nth 12 (generate_uuid sample_draw) "0"%char = "4"%char.
Proof.
  split; [reflexivity|].
  exact (proj1 (@generate_uuid_version_variant sample_draw eq_refl)).
Defined.

(** X2.  Two 128-bit draws give the same identifier exactly when their
    UUIDs agree above the 32 lowest bits; so the 32 lowest bits of a draw
    never matter. *)
Theorem generate_uuid_same_iff r r' :
  (r < 2 ^ 128)%N -> (r' < 2 ^ 128)%N ->
  (generate_uuid r = generate_uuid r' <->
   (Uuid.uuid4 r / 2 ^ 32 = Uuid.uuid4 r' / 2 ^ 32)%N) /\
  ((r / 2 ^ 32 = r' / 2 ^ 32)%N -> generate_uuid r = generate_uuid r').
Proof.
  intros Hr Hr'.
  assert (Hiff : generate_uuid r = generate_uuid r' <->
                 (Uuid.uuid4 r / 2 ^ 32 = Uuid.uuid4 r' / 2 ^ 32)%N).
  { rewrite (HexFacts.generate_uuid_digits Hr), (HexFacts.generate_uuid_digits Hr').
    split; [|now intros ->].
    apply HexFacts.upper_hex_digits_inj;
      apply N.Div0.div_lt_upper_bound; now apply HexFacts.uuid4_bound. }
  split; [exact Hiff|].
  intros H. apply Hiff. rewrite <- !N.shiftr_div_pow2 in *.
  apply N.bits_inj. intros n. rewrite !N.shiftr_spec', !HexFacts.uuid4_testbit.
  apply (f_equal (fun x => N.testbit x n)) in H. rewrite !N.shiftr_spec' in H.
  now rewrite H.
Qed.

Lemma generate_uuid_same_iff_witness :
  (sample_draw < 2 ^ 128)%N /\ (sample_draw + 1 < 2 ^ 128)%N /\
  (sample_draw / 2 ^ 32 = (sample_draw + 1) / 2 ^ 32)%N /\
  generate_uuid sample_draw = generate_uuid (sample_draw + 1).
Proof.
  split; [reflexivity|]. split; [reflexivity|]. split; [reflexivity|].
  exact (proj2 (@generate_uuid_same_iff sample_draw (sample_draw + 1) eq_refl eq_refl)
           eq_refl).
Defined.

(** ** More of the four sub-steps *)

Section MoreOfPatch.

Variables file_name file_ref_uuid build_file_uuid : text.

Local Abbreviation sub_step := (sub_step file_name file_ref_uuid build_file_uuid).
Local Abbreviation run_order := (run_order file_name file_ref_uuid build_file_uuid).
Local Abbreviation entry_of := (entry_of file_name file_ref_uuid build_file_uuid).
Local Abbreviation insertions := (insertions file_name file_ref_uuid build_file_uuid).
Local Abbreviation total_length := (total_length file_name file_ref_uuid build_file_uuid).
Local Abbreviation found_at_turn := (found_at_turn file_name file_ref_uuid build_file_uuid).

(** X3.  Whatever the manifest holds, [patch] only inserts: its output is
    the input with the lines of those sub-steps that found their anchor when
    their turn came, in the implemented order, each put in right after a
    text matching its anchor, and nothing removed or rewritten. *)
Theorem patch_inserts_what_it_finds c file_path :
  insertions (filter (fun k => found_at_turn k c) implemented_order) c
    (patch c file_name file_path file_ref_uuid build_file_uuid) /\
  length (patch c file_name file_path file_ref_uuid build_file_uuid) =
    length c + total_length (filter (fun k => found_at_turn k c) implemented_order).
Proof.
  rewrite <- hits_implemented, patch_run_order.
  pose proof (run_order_insertions file_name file_ref_uuid build_file_uuid
                implemented_order c) as H.
  split; [exact H|]. now apply insertions_length.
Qed.

Lemma found_longer k c order :
  found k c = true -> length c < length (run_order (k :: order) c).
Proof.
  intros H.
  change (run_order (k :: order) c)
    with (run_order order (sub_step k c)).
  pose proof (run_order_length file_name file_ref_uuid build_file_uuid order (sub_step k c)).
  pose proof (sub_step_length file_name file_ref_uuid build_file_uuid k c) as Hs.
  rewrite H in Hs.
  pose proof (entry_of_length file_name file_ref_uuid build_file_uuid k). lia.
Qed.

Lemma run_order_unchanged order : forall c,
  run_order order c = c <-> forall k, In k order -> found k c = false.
Proof.
  induction order as [|k order IH]; intros c.
  - simpl. split; [intros _ k []|reflexivity].
  - split.
    + intros E. assert (Hk : found k c = false).
      { destruct (found k c) eqn:F; [|reflexivity].
        pose proof (found_longer k c order F) as Hl. rewrite E in Hl. lia. }
      intros j [<-|Hj]; [exact Hk|].
      change (run_order (k :: order) c)
        with (run_order order (sub_step k c)) in E.
      rewrite (sub_step_skip file_name file_ref_uuid build_file_uuid k c Hk) in E.
      now apply (proj1 (IH c) E).
    + intros H.
      change (run_order (k :: order) c)
        with (run_order order (sub_step k c)).
      rewrite (sub_step_skip file_name file_ref_uuid build_file_uuid k c)
        by (apply H; now left).
      apply IH. intros j Hj. apply H. now right.
Qed.

(** X4.  [patch] returns the manifest as it is exactly when none of the
    four anchor patterns is found in it. *)
Theorem patch_unchanged_iff c file_path :
  patch c file_name file_path file_ref_uuid build_file_uuid = c <->
  forall k, found k c = false.
Proof.
  rewrite patch_run_order, run_order_unchanged. split.
  - intros H k. apply H. destruct k; simpl; auto.
  - intros H k _. apply H.
Qed.

(** X5.  No sub-step ever loses a section marker: a build-file or
    file-reference marker that is in the manifest is found again after any
    sequence of sub-steps, so after [patch], whatever the file name and the
    identifiers are. *)
Theorem section_marker_survives k c file_path order :
  k = BuildFile \/ k = FileRef -> found k c = true ->
  found k (run_order order c) = true /\
  found k (patch c file_name file_path file_ref_uuid build_file_uuid) = true.
Proof.
  intros Hk H. rewrite patch_run_order. split; now apply marker_survives_run.
Qed.

(** X6.  No sub-step ever creates an anchor: with no newline, opening brace
    or semicolon in the file name and the identifiers, an anchor pattern
    that is not found in the manifest is not found after any sequence of
    sub-steps either. *)
Theorem no_anchor_created k c file_path order :
  plain file_name = true -> plain file_ref_uuid = true ->
  plain build_file_uuid = true ->
  found k c = false ->
  found k (run_order order c) = false /\
  found k (patch c file_name file_path file_ref_uuid build_file_uuid) = false.
Proof.
  intros Hn Ha Hb H. rewrite patch_run_order.
  apply found_matched_text in H.
  assert (Hv : forall (a : section_id) (z : text),
             matched_text k c = Some z -> zone_safe z (anchor_tail a) = true)
    by (intros a z Hz; rewrite H in Hz; discriminate Hz).
  split; apply found_matched_text; rewrite matched_text_run; auto.
Qed.

(** X7.  On a manifest whose anchors are not nested, and with plain file
    name and identifiers, every anchor pattern matches the same text after
    any sequence of sub-steps as before; so the output of [patch] is again a
    manifest whose anchors are not nested, with the same anchors. *)
Theorem anchors_kept c file_path order :
  plain file_name = true -> plain file_ref_uuid = true ->
  plain build_file_uuid = true ->
  unnested c = true ->
  (forall k, matched_text k (run_order order c) = matched_text k c) /\
  unnested (patch c file_name file_path file_ref_uuid build_file_uuid) = true /\
  separated (patch c file_name file_path file_ref_uuid build_file_uuid) = separated c.
Proof.
  intros Hn Ha Hb Hu.
  assert (H : forall order k, matched_text k (run_order order c) = matched_text k c).
  { intros o k. apply matched_text_run; auto.
    intros a z Hz. apply (@unnested_safe a k c z Hu Hz). }
  rewrite patch_run_order. split; [apply H|]. split.
  - unfold unnested in *. rewrite forallb_forall in *. intros k Hk.
    rewrite H. now apply Hu.
  - unfold separated. generalize implemented_order at 2 3. intros l.
    induction l as [|k l IH]; [reflexivity|].
    cbn [forallb]. rewrite IH. unfold anchor_clear. now rewrite H.
Qed.

(** X8.  The text before the first anchor is never touched: when no anchor
    pattern matches within the first [n] characters of the manifest, these
    characters start the output of any sequence of sub-steps. *)
Theorem prefix_kept c file_path n order :
  (forall k, search (pattern_of k) (firstn n c) = None) ->
  firstn n (run_order order c) = firstn n c /\
  firstn n (patch c file_name file_path file_ref_uuid build_file_uuid) = firstn n c.
Proof.
  intros H.
  assert (Hrun : forall order c', firstn n c' = firstn n c ->
                 firstn n (run_order order c') = firstn n c).
  { intros o. induction o as [|k o IH]; intros c' Hc'; [exact Hc'|].
    change (run_order (k :: o) c')
      with (run_order o (sub_step k c')).
    apply IH. rewrite <- Hc'. apply insert_after_keeps_prefix. rewrite Hc'. apply H. }
  rewrite patch_run_order. split; now apply Hrun.
Qed.

Lemma marker_zone b a x z :
  b = BuildFile \/ b = FileRef -> a = BuildFile \/ a = FileRef ->
  matched_text b x = Some z -> zone_safe z (anchor_tail a) = true.
Proof.
  intros Hb Ha. unfold matched_text.
  destruct (search (pattern_of b) x) as [m|] eqn:E; [|discriminate].
  intros [= Hz]. destruct (search_some _ _ E) as (_ & _ & Hm & _). rewrite Hz in Hm.
  assert (Hl : exists l, pattern_of b = [Lit l] /\ zone_safe l (anchor_tail a) = true).
  { destruct Ha as [-> | ->], Hb as [-> | ->]; eexists;
      (split; [reflexivity|vm_compute; reflexivity]). }
  destruct Hl as (l & Hp & Hs). rewrite Hp in Hm.
  assert (Hzl : z = l).
  { inversion Hm as [|? ? w' Hw'|]; subst. inversion Hw'; subst. apply List.app_nil_r. }
  now rewrite Hzl.
Qed.

(** X9.  The build-file and the file-reference sub-step commute on every
    manifest, provided the file name and the identifiers are plain. *)
Theorem section_marker_steps_commute x :
  plain file_name = true -> plain file_ref_uuid = true ->
  plain build_file_uuid = true ->
  sub_step FileRef (sub_step BuildFile x) = sub_step BuildFile (sub_step FileRef x).
Proof.
  intros Hn Ha Hb. apply pair_commute; [discriminate| |];
    apply anchor_stable; auto; intros z Hz; revert Hz; apply marker_zone; auto.
Qed.

End MoreOfPatch.

(** ** More of the script as a whole *)







(** ** These properties at sample inputs *)


Lemma section_marker_survives_witness :
  (BuildFile = BuildFile \/ BuildFile = FileRef) /\ found BuildFile nested = true /\
  found BuildFile (patch nested the_file_name the_file_path ID_A ID_B) = true.
Proof.
  assert (H : found BuildFile nested = true) by (vm_compute; reflexivity).
  split; [now left|]. split; [exact H|].
  exact (proj2 (@section_marker_survives the_file_name ID_A ID_B BuildFile nested
                  the_file_path [] (or_introl eq_refl) H)).
Defined.

Lemma no_anchor_created_witness :
  plain the_file_name = true /\ plain ID_A = true /\ plain ID_B = true /\
  found ViewsGroup project_no_group = false /\
  found ViewsGroup (patch project_no_group the_file_name the_file_path ID_A ID_B) = false.
Proof.
  assert (H : found ViewsGroup project_no_group = false) by (vm_compute; reflexivity).
  do 3 (split; [reflexivity|]). split; [exact H|].
  exact (proj2 (@no_anchor_created the_file_name ID_A ID_B ViewsGroup project_no_group
                  the_file_path [] eq_refl eq_refl eq_refl H)).
Defined.

Lemma anchors_kept_witness :
  plain the_file_name = true /\ plain ID_A = true /\ plain ID_B = true /\
  unnested project = true /\
  unnested (patch project the_file_name the_file_path ID_A ID_B) = true.
Proof.
  assert (H : unnested project = true) by (vm_compute; reflexivity).
  do 3 (split; [reflexivity|]). split; [exact H|].
  exact (proj1 (proj2 (@anchors_kept the_file_name ID_A ID_B project the_file_path []
                         eq_refl eq_refl eq_refl H))).
Defined.

Lemma prefix_kept_witness :
  (forall k, search (pattern_of k) (firstn 60 project) = None) /\
  firstn 60 (patch project the_file_name the_file_path ID_A ID_B) = firstn 60 project.
Proof.
  assert (H : forall k, search (pattern_of k) (firstn 60 project) = None)
    by (intros k; destruct k; vm_compute; reflexivity).
  split; [exact H|].
  exact (proj2 (@prefix_kept the_file_name ID_A ID_B project the_file_path 60 [] H)).
Defined.

Lemma section_marker_steps_commute_witness :
  plain the_file_name = true /\ plain ID_A = true /\ plain ID_B = true /\
  sub_step the_file_name ID_A ID_B FileRef (sub_step the_file_name ID_A ID_B BuildFile nested) =
  sub_step the_file_name ID_A ID_B BuildFile (sub_step the_file_name ID_A ID_B FileRef nested).
Proof.
  do 3 (split; [reflexivity|]).
  exact (@section_marker_steps_commute the_file_name ID_A ID_B nested
           eq_refl eq_refl eq_refl).
Defined.




